(** * The arena server of [server.js], embedded in Rocq

    The Node process is single threaded: every socket event and every timer
    callback runs to completion before the next one starts.  The embedding
    follows that shape.  The module-level variables of [server.js] are the
    fields of one record, the observable effects (socket emissions and file
    writes) are appended to a trace, and each handler is a computation in a
    small state-and-exception monad.  Every handler run receives one clock
    reading [now], standing for the [Date.now()] calls it makes, and the
    random draws it makes as arguments. *)

From Stdlib Require Import ZArith Floats String Ascii.
From stdpp Require Import base option list gmap fin_maps sorting pretty.

Set Default Proof Using "Type".

(** ** JavaScript values *)

(** A JavaScript string is a sequence of UTF-16 code units. *)
Abbreviation jsstring := (list N).

Definition js (s : string) : jsstring :=
  (λ a, N_of_ascii a) <$> list_ascii_of_string s.

(** White space and line terminators, as [String.prototype.trim] strips them. *)
Definition isWhiteSpace (c : N) : bool :=
  bool_decide (c ∈ [9; 10; 11; 12; 13; 32; 160; 5760; 8232; 8233; 8239;
                    8287; 12288; 65279]%N)
  || (N.leb 8192 c && N.leb c 8202).

Fixpoint trimStart (s : jsstring) : jsstring :=
  match s with
  | c :: s' => if isWhiteSpace c then trimStart s' else s
  | [] => []
  end.

Definition trimEnd (s : jsstring) : jsstring := reverse (trimStart (reverse s)).

Definition trim (s : jsstring) : jsstring := trimEnd (trimStart s).

(** [s.substring(0, n)] *)
Definition substring0 (n : nat) (s : jsstring) : jsstring := take n s.

(** Truthiness of a string: every string but the empty one. *)
Definition truthy (s : jsstring) : bool :=
  match s with [] => false | _ => true end.

(** Numbers that are whole in the program (clock readings, scores, health)
    are integers; the coordinates, which come from [Math.random] and from
    the clients, are IEEE doubles.  A coordinate slot can also hold
    [undefined], written [None]. *)
Abbreviation jsnum := (option float).

Definition jsNaN : float := PrimFloat.nan.

(** [ToNumber]: [undefined] converts to [NaN]. *)
Definition toNumber (v : jsnum) : float :=
  match v with Some f => f | None => jsNaN end.

Definition isNaN (f : float) : bool := negb (PrimFloat.eqb f f).

(** [f || 0] on a number: zero and [NaN] are falsy. *)
Definition orZero (f : float) : float :=
  if PrimFloat.eqb f 0%float || isNaN f then 0%float else f.

Definition showZ (z : Z) : jsstring := js (pretty z).

(** ** Insertion-ordered maps

    A JavaScript [Map] iterates in insertion order, and the pill scan and
    the leaderboard sort depend on that order.  Such maps are association
    lists: [set] overwrites in place or appends, [delete] removes. *)
Module JsMap.
Section jsmap.
Context {V : Type}.
Local Abbreviation t := (list (jsstring * V)).

Fixpoint get (k : jsstring) (m : t) : option V :=
  match m with
  | [] => None
  | (k', v) :: m' => if decide (k' = k) then Some v else get k m'
  end.

Definition has (k : jsstring) (m : t) : bool := bool_decide (is_Some (get k m)).

Fixpoint set (k : jsstring) (v : V) (m : t) : t :=
  match m with
  | [] => [(k, v)]
  | (k', v') :: m' =>
      if decide (k' = k) then (k, v) :: m' else (k', v') :: set k v m'
  end.

Fixpoint delete (k : jsstring) (m : t) : t :=
  match m with
  | [] => []
  | (k', v') :: m' => if decide (k' = k) then m' else (k', v') :: delete k m'
  end.

Definition size (m : t) : nat := length m.
Definition values (m : t) : list V := m.*2.
Definition keys (m : t) : list jsstring := m.*1.
Definition clear (m : t) : t := [].

(** The keys of a [Map] are pairwise distinct. *)
Definition wf (m : t) : Prop := NoDup (keys m).
End jsmap.
End JsMap.

Abbreviation jsmap V := (list (jsstring * V)).

(** ** The data model *)

Module Player.
Record t := mk {
  id : jsstring;
  x : jsnum;
  y : jsnum;
  health : Z;
  maxHealth : Z;
  color : jsstring;
  name : jsstring;
  angle : Z;
  direction : float;
  weaponAngle : float;
  kills : Z;
  score : Z;
  lastActivity : Z;
  lastMovementUpdate : option Z (* [undefined] until the first accepted move *)
}.
Definition set_x v p :=
  mk (id p) v (y p) (health p) (maxHealth p) (color p) (name p) (angle p)
     (direction p) (weaponAngle p) (kills p) (score p) (lastActivity p)
     (lastMovementUpdate p).
Definition set_y v p :=
  mk (id p) (x p) v (health p) (maxHealth p) (color p) (name p) (angle p)
     (direction p) (weaponAngle p) (kills p) (score p) (lastActivity p)
     (lastMovementUpdate p).
Definition set_health v p :=
  mk (id p) (x p) (y p) v (maxHealth p) (color p) (name p) (angle p)
     (direction p) (weaponAngle p) (kills p) (score p) (lastActivity p)
     (lastMovementUpdate p).
Definition set_name v p :=
  mk (id p) (x p) (y p) (health p) (maxHealth p) (color p) v (angle p)
     (direction p) (weaponAngle p) (kills p) (score p) (lastActivity p)
     (lastMovementUpdate p).
Definition set_direction v p :=
  mk (id p) (x p) (y p) (health p) (maxHealth p) (color p) (name p) (angle p)
     v (weaponAngle p) (kills p) (score p) (lastActivity p)
     (lastMovementUpdate p).
Definition set_weaponAngle v p :=
  mk (id p) (x p) (y p) (health p) (maxHealth p) (color p) (name p) (angle p)
     (direction p) v (kills p) (score p) (lastActivity p)
     (lastMovementUpdate p).
Definition set_score v p :=
  mk (id p) (x p) (y p) (health p) (maxHealth p) (color p) (name p) (angle p)
     (direction p) (weaponAngle p) (kills p) v (lastActivity p)
     (lastMovementUpdate p).
Definition set_lastActivity v p :=
  mk (id p) (x p) (y p) (health p) (maxHealth p) (color p) (name p) (angle p)
     (direction p) (weaponAngle p) (kills p) (score p) v
     (lastMovementUpdate p).
Definition set_lastMovementUpdate v p :=
  mk (id p) (x p) (y p) (health p) (maxHealth p) (color p) (name p) (angle p)
     (direction p) (weaponAngle p) (kills p) (score p) (lastActivity p) v.
End Player.

Module Pill.
Record t := mk {
  id : jsstring;
  x : float;
  y : float;
  points : Z;
  spawnTime : Z
}.
End Pill.

(** An entry of the score ledger [playerScores]. *)
Module ScoreRecord.
Record t := mk { name : jsstring; score : Z; lastSeen : Z }.
End ScoreRecord.

(** An entry of [sessionTokens]. *)
Module Token.
Record t := mk { name : jsstring; score : Z; created : Z }.
End Token.

(** An entry of [dailyLeaderboard.topScores]. *)
Module DailyEntry.
Record t := mk { name : jsstring; score : Z; timestamp : Z }.
End DailyEntry.

(** An entry of [allTimeLeaderboard]. *)
Module AllTimeEntry.
Record t := mk { name : jsstring; score : Z; timestamp : Z; date : jsstring }.
End AllTimeEntry.

(** *** Messages and effects *)

(** The payload of a [playerUpdate]; the handlers do not all send [score]. *)
Record PlayerUpdate := {
  pu_id : jsstring;
  pu_x : jsnum;
  pu_y : jsnum;
  pu_health : Z;
  pu_maxHealth : Z;
  pu_color : jsstring;
  pu_name : jsstring;
  pu_direction : float;
  pu_weaponAngle : float;
  pu_score : option Z
}.

Record DailySnapshot := {
  ds_topScores : list DailyEntry.t;
  ds_timeRemaining : Z;
  ds_currentDay : jsstring
}.

Record Snapshot := {
  sn_players : gmap jsstring Player.t;
  sn_playerCount : nat;
  sn_pills : jsmap Pill.t;
  sn_dailyLeaderboard : DailySnapshot;
  sn_allTimeLeaderboard : list AllTimeEntry.t
}.

Inductive message :=
  | gameStateMsg (s : Snapshot)
  | playerUpdate (u : PlayerUpdate)
  | playerCountUpdate (n : nat)
  | playerLeft (socketId : jsstring)
  | playerRespawned (p : Player.t)
  | pillSpawned (pill : Pill.t) (animated : bool)
  | pillCollected (pillId playerId : jsstring) (points newScore : Z)
  | dailyLeaderboardUpdate (topScores : list DailyEntry.t) (currentDay : jsstring)
  | dailyLeaderboardReset (newDay : jsstring) (timeRemaining : Z)
  | allTimeLeaderboardUpdate (topScores : list AllTimeEntry.t)
  | timeUpdate (timeRemaining : Z)
  | sessionTokenMsg (token name : jsstring) (score : Z).

(** [io.emit], [socket.emit] and [socket.broadcast.emit]. *)
Inductive target :=
  | ToAll
  | ToSocket (socketId : jsstring)
  | ToOthers (socketId : jsstring).

(** What [fs.writeFileSync] is asked to write, one constructor per file. *)
Inductive document :=
  | PlayerScoresFile (d : gmap jsstring ScoreRecord.t)
  | DailyLeaderboardFile (currentDay : jsstring)
      (topScores : jsmap DailyEntry.t) (resetTime : option Z)
  | AllTimeLeaderboardFile (d : list AllTimeEntry.t).

Inductive effect :=
  | Emit (to : target) (m : message)
  | WriteFile (d : document).

(** *** The module-level state *)

Record GameState := {
  players : gmap jsstring Player.t;
  playerCount : nat;
  pills : jsmap Pill.t
}.

Record DailyLeaderboard := {
  currentDay : jsstring;
  topScores : jsmap DailyEntry.t;
  resetTime : option Z; (* [null] until [initializeDailyReset] *)
  timeRemaining : Z
}.

Record World := {
  gameState : GameState;
  playerScores : gmap jsstring ScoreRecord.t;
  sessionTokens : gmap jsstring Token.t;
  dailyLeaderboard : DailyLeaderboard;
  allTimeLeaderboard : list AllTimeEntry.t;
  nextPlayerId : nat;
  initialPillsSpawned : nat;
  initialSpawnInterval : bool; (* false once [clearInterval] has run *)
  respawnTimers : list jsstring; (* pending [setTimeout] callbacks *)
  trace : list effect (* everything emitted or written so far *)
}.

Definition set_players v (w : World) : World :=
  let g := gameState w in
  Build_World (Build_GameState v (playerCount g) (pills g)) (playerScores w)
    (sessionTokens w) (dailyLeaderboard w) (allTimeLeaderboard w)
    (nextPlayerId w) (initialPillsSpawned w) (initialSpawnInterval w)
    (respawnTimers w) (trace w).
Definition set_playerCount v (w : World) : World :=
  let g := gameState w in
  Build_World (Build_GameState (players g) v (pills g)) (playerScores w)
    (sessionTokens w) (dailyLeaderboard w) (allTimeLeaderboard w)
    (nextPlayerId w) (initialPillsSpawned w) (initialSpawnInterval w)
    (respawnTimers w) (trace w).
Definition set_pills v (w : World) : World :=
  let g := gameState w in
  Build_World (Build_GameState (players g) (playerCount g) v) (playerScores w)
    (sessionTokens w) (dailyLeaderboard w) (allTimeLeaderboard w)
    (nextPlayerId w) (initialPillsSpawned w) (initialSpawnInterval w)
    (respawnTimers w) (trace w).
Definition set_playerScores v (w : World) : World :=
  Build_World (gameState w) v (sessionTokens w) (dailyLeaderboard w)
    (allTimeLeaderboard w) (nextPlayerId w) (initialPillsSpawned w)
    (initialSpawnInterval w) (respawnTimers w) (trace w).
Definition set_sessionTokens v (w : World) : World :=
  Build_World (gameState w) (playerScores w) v (dailyLeaderboard w)
    (allTimeLeaderboard w) (nextPlayerId w) (initialPillsSpawned w)
    (initialSpawnInterval w) (respawnTimers w) (trace w).
Definition set_dailyLeaderboard v (w : World) : World :=
  Build_World (gameState w) (playerScores w) (sessionTokens w) v
    (allTimeLeaderboard w) (nextPlayerId w) (initialPillsSpawned w)
    (initialSpawnInterval w) (respawnTimers w) (trace w).
Definition set_allTimeLeaderboard v (w : World) : World :=
  Build_World (gameState w) (playerScores w) (sessionTokens w)
    (dailyLeaderboard w) v (nextPlayerId w) (initialPillsSpawned w)
    (initialSpawnInterval w) (respawnTimers w) (trace w).
Definition set_nextPlayerId v (w : World) : World :=
  Build_World (gameState w) (playerScores w) (sessionTokens w)
    (dailyLeaderboard w) (allTimeLeaderboard w) v (initialPillsSpawned w)
    (initialSpawnInterval w) (respawnTimers w) (trace w).
Definition set_initialPillsSpawned v (w : World) : World :=
  Build_World (gameState w) (playerScores w) (sessionTokens w)
    (dailyLeaderboard w) (allTimeLeaderboard w) (nextPlayerId w) v
    (initialSpawnInterval w) (respawnTimers w) (trace w).
Definition set_initialSpawnInterval v (w : World) : World :=
  Build_World (gameState w) (playerScores w) (sessionTokens w)
    (dailyLeaderboard w) (allTimeLeaderboard w) (nextPlayerId w)
    (initialPillsSpawned w) v (respawnTimers w) (trace w).
Definition set_respawnTimers v (w : World) : World :=
  Build_World (gameState w) (playerScores w) (sessionTokens w)
    (dailyLeaderboard w) (allTimeLeaderboard w) (nextPlayerId w)
    (initialPillsSpawned w) (initialSpawnInterval w) v (trace w).
Definition set_trace v (w : World) : World :=
  Build_World (gameState w) (playerScores w) (sessionTokens w)
    (dailyLeaderboard w) (allTimeLeaderboard w) (nextPlayerId w)
    (initialPillsSpawned w) (initialSpawnInterval w) (respawnTimers w) v.

Definition set_topScores v (d : DailyLeaderboard) : DailyLeaderboard :=
  Build_DailyLeaderboard (currentDay d) v (resetTime d) (timeRemaining d).
Definition set_currentDay v (d : DailyLeaderboard) : DailyLeaderboard :=
  Build_DailyLeaderboard v (topScores d) (resetTime d) (timeRemaining d).
Definition set_resetTime v (d : DailyLeaderboard) : DailyLeaderboard :=
  Build_DailyLeaderboard (currentDay d) (topScores d) v (timeRemaining d).
Definition set_timeRemaining v (d : DailyLeaderboard) : DailyLeaderboard :=
  Build_DailyLeaderboard (currentDay d) (topScores d) (resetTime d) v.

(** ** The handler monad: state, plus the [TypeError] a handler can throw *)

Inductive result (A : Type) :=
  | Ok (a : A) (w : World)
  | Throw.
Arguments Ok {A} a w.
Arguments Throw {A}.

Definition M (A : Type) : Type := World → result A.

#[export] Instance M_ret : MRet M := λ A a w, Ok a w.
#[export] Instance M_bind : MBind M := λ A B f c w,
  match c w with
  | Ok a w' => f a w'
  | Throw => Throw
  end.

Definition gets {A} (f : World → A) : M A := λ w, Ok (f w) w.
Definition modify (f : World → World) : M unit := λ w, Ok tt (f w).
Definition throwTypeError {A} : M A := λ _, Throw.
Definition emit (to : target) (m : message) : M unit :=
  modify (λ w, set_trace (trace w ++ [Emit to m]) w).
Definition writeFileSync (d : document) : M unit :=
  modify (λ w, set_trace (trace w ++ [WriteFile d]) w).

(** The world a handler leaves behind, if it returns. *)
Definition exec {A} (c : M A) (w : World) : option World :=
  match c w with Ok _ w' => Some w' | Throw => None end.

(** ** The host: what the program asks of the [Date] object

    [toDateString] and [toLocaleDateString] render the local calendar date
    of a clock reading; [nextMidnight now] is the reading of
    [new Date(now)] after [setDate(getDate() + 1)] and
    [setHours(0, 0, 0, 0)]. *)
Class Host := {
  toDateString : Z → jsstring;
  toLocaleDateString : Z → jsstring;
  nextMidnight : Z → Z
}.

(** [Array.prototype.sort((a, b) => b.score - a.score)]: a stable sort,
    highest score first.  The head goes in front of the first element of
    the sorted tail that does not beat it, which keeps equal scores in
    their original order. *)
Fixpoint insertDesc {A} (score : A → Z) (a : A) (l : list A) : list A :=
  match l with
  | [] => [a]
  | b :: l' =>
      if (score a <? score b)%Z then b :: insertDesc score a l' else a :: l
  end.

Definition sortDesc {A} (score : A → Z) (l : list A) : list A :=
  foldr (insertDesc score) [] l.

(** ** Settings *)

Definition MAX_PILLS : nat := 30.
Definition PILL_SPAWN_INTERVAL : Z := 500.
Definition PILL_SIZE : float := 45.
Definition RESPAWN_TIME : Z := 3000.
Definition MAP_WIDTH : float := 4800.
Definition MAP_HEIGHT : float := 3200.
Definition PLAYER_RADIUS : float := 20.
Definition TWENTY_FOUR_HOURS : Z := 24 * 60 * 60 * 1000.

Definition PLAYER_COLORS : list jsstring :=
  [js "#00d4ff"; js "#7c3aed"; js "#ef4444"; js "#22c55e";
   js "#f97316"; js "#eab308"; js "#ec4899"; js "#14b8a6"].

(** [colorIndex] is [Math.floor(Math.random() * PLAYER_COLORS.length)]. *)
Definition getRandomColor (colorIndex : nat) : jsstring :=
  default [] (PLAYER_COLORS !! colorIndex).

(** [r1] and [r2] are the two [Math.random()] draws. *)
Definition getRandomSpawnPoint (r1 r2 : float) : float * float :=
  let margin := 100%float in
  ((margin + r1 * (MAP_WIDTH - 2 * margin))%float,
   (margin + r2 * (MAP_HEIGHT - 2 * margin))%float).

(** ** Persistence *)

Definition savePlayerScores : M unit :=
  d ← gets playerScores;
  writeFileSync (PlayerScoresFile d).

Definition saveDailyLeaderboard : M unit :=
  d ← gets dailyLeaderboard;
  writeFileSync (DailyLeaderboardFile (currentDay d) (topScores d) (resetTime d)).

Definition saveAllTimeLeaderboard : M unit :=
  d ← gets allTimeLeaderboard;
  writeFileSync (AllTimeLeaderboardFile d).

(** ** Session tokens *)

(** [rnd] is [Math.random().toString(36).substr(2, 9)]. *)
Definition generateSessionToken (now : Z) (rnd : jsstring) : jsstring :=
  js "session_" ++ showZ now ++ js "_" ++ rnd.

(** The loop visits the entries the map had on entry; deleting the entry
    being visited does not disturb the iteration. *)
Definition cleanupExpiredTokens (now : Z) : M unit :=
  tokens ← gets sessionTokens;
  modify (set_sessionTokens
    (foldr (λ '(token, data) m,
              if (TWENTY_FOUR_HOURS <? now - Token.created data)%Z
              then delete token m else m)
           tokens (map_to_list tokens))).

Section server.
Context `{Host}.

(** ** Leaderboards *)

(** The new contents of [allTimeLeaderboard]: the lookup, the update or
    the push, the sort and the [slice(0, 3)]. *)
Definition rankAllTime (newEntry : AllTimeEntry.t)
    (board : list AllTimeEntry.t) : list AllTimeEntry.t :=
  let playerName := AllTimeEntry.name newEntry in
  let score := AllTimeEntry.score newEntry in
  let board' :=
    match list_find (λ entry, AllTimeEntry.name entry = playerName) board with
    | Some (existingIndex, existing) =>
        if (AllTimeEntry.score existing <? score)%Z
        then <[existingIndex := newEntry]> board
        else board
    | None => board ++ [newEntry]
    end in
  take 3 (sortDesc AllTimeEntry.score board').

Definition updateAllTimeLeaderboard (now : Z) (playerName : jsstring)
    (score : Z) : M unit :=
  let newEntry :=
    AllTimeEntry.mk playerName score now (toLocaleDateString now) in
  modify (λ w, set_allTimeLeaderboard
    (rankAllTime newEntry (allTimeLeaderboard w)) w);;
  saveAllTimeLeaderboard;;
  board ← gets allTimeLeaderboard;
  emit ToAll (allTimeLeaderboardUpdate board).

Definition updateTimeRemaining (now : Z) : M unit :=
  modify (λ w,
    let d := dailyLeaderboard w in
    set_dailyLeaderboard
      (set_timeRemaining (Z.max 0 (default 0 (resetTime d) - now))%Z d) w).

Definition initializeDailyReset (now : Z) : M unit :=
  modify (λ w, set_dailyLeaderboard
    (set_resetTime (Some (nextMidnight now)) (dailyLeaderboard w)) w);;
  updateTimeRemaining now.

Definition resetDailyLeaderboard (now : Z) : M unit :=
  modify (λ w, set_dailyLeaderboard
    (set_topScores (JsMap.clear (topScores (dailyLeaderboard w)))
       (dailyLeaderboard w)) w);;
  modify (λ w, set_dailyLeaderboard
    (set_currentDay (toDateString now) (dailyLeaderboard w)) w);;
  modify (λ w, set_dailyLeaderboard
    (set_resetTime (Some (nextMidnight now)) (dailyLeaderboard w)) w);;
  saveDailyLeaderboard;;
  d ← gets dailyLeaderboard;
  emit ToAll (dailyLeaderboardReset (currentDay d) (timeRemaining d)).

Definition updateDailyLeaderboard (now : Z) (playerId playerName : jsstring)
    (score : Z) : M unit :=
  let playerKey := playerName in
  modify (λ w, set_dailyLeaderboard
    (set_topScores
       (JsMap.set playerKey (DailyEntry.mk playerName score now)
          (topScores (dailyLeaderboard w)))
       (dailyLeaderboard w)) w);;
  saveDailyLeaderboard;;
  d ← gets dailyLeaderboard;
  let sortedScores :=
    take 10 (sortDesc DailyEntry.score (JsMap.values (topScores d))) in
  emit ToAll (dailyLeaderboardUpdate sortedScores (currentDay d)).

(** The one-second interval. *)
Definition countdownTick (now : Z) : M unit :=
  updateTimeRemaining now;;
  remaining ← gets (λ w, timeRemaining (dailyLeaderboard w));
  (if (remaining <=? 0)%Z then resetDailyLeaderboard now else mret tt);;
  remaining ← gets (λ w, timeRemaining (dailyLeaderboard w));
  emit ToAll (timeUpdate remaining).

(** The thirty-second interval. *)
Definition flushTick : M unit :=
  scores ← gets playerScores;
  if bool_decide (0 < size scores) then savePlayerScores else mret tt.

(** ** Pills *)

(** [rnd] is the rendering of the [Math.random()] draw in the pill id;
    [r1] and [r2] are the draws of the spawn point. *)
Definition generatePill (now : Z) (rnd : jsstring) (r1 r2 : float) : M unit :=
  pool ← gets (λ w, pills (gameState w));
  if bool_decide (MAX_PILLS ≤ JsMap.size pool) then mret tt
  else
    let pillId := js "pill_" ++ showZ now ++ js "_" ++ rnd in
    let spawn := getRandomSpawnPoint r1 r2 in
    let pill := Pill.mk pillId spawn.1 spawn.2 1 now in
    modify (λ w, set_pills (JsMap.set pillId pill (pills (gameState w))) w);;
    emit ToAll (pillSpawned pill true).

(** The test of the scan: is the pill within reach of the player? *)
Definition inReach (playerX playerY : jsnum) (pill : Pill.t) : bool :=
  let dx := (toNumber playerX - Pill.x pill)%float in
  let dy := (toNumber playerY - Pill.y pill)%float in
  let distance := PrimFloat.sqrt (dx * dx + dy * dy)%float in
  PrimFloat.leb distance (PLAYER_RADIUS + PILL_SIZE / 2)%float.

Definition modifyPlayer (playerId : jsstring) (f : Player.t → Player.t) : M unit :=
  modify (λ w, set_players (alter f playerId (players (gameState w))) w).

(** The body of the [if] in the scan, which ends in [break]. *)
Definition collectPill (now : Z) (playerId pillId : jsstring) (pill : Pill.t)
    (player : Player.t) : M unit :=
  let newScore := (Player.score player + Pill.points pill)%Z in
  modifyPlayer playerId (Player.set_score newScore);;
  modify (λ w, set_pills (JsMap.delete pillId (pills (gameState w))) w);;
  let playerKey := Player.name player ++ js "_" ++ playerId in
  modify (λ w, set_playerScores
    (<[playerKey := ScoreRecord.mk (Player.name player) newScore now]>
       (playerScores w)) w);;
  savePlayerScores;;
  emit ToAll (pillCollected pillId playerId (Pill.points pill) newScore);;
  updateDailyLeaderboard now playerId (Player.name player) newScore;;
  updateAllTimeLeaderboard now (Player.name player) newScore.

(** The [for ... of] loop over the entries of the pool. *)
Fixpoint scanPills (now : Z) (playerId : jsstring) (playerX playerY : jsnum)
    (player : Player.t) (entries : jsmap Pill.t) : M unit :=
  match entries with
  | [] => mret tt
  | (pillId, pill) :: rest =>
      if inReach playerX playerY pill
      then collectPill now playerId pillId pill player
      else scanPills now playerId playerX playerY player rest
  end.

Definition checkPillCollection (now : Z) (playerId : jsstring)
    (playerX playerY : jsnum) : M unit :=
  player ← gets (λ w, players (gameState w) !! playerId);
  match player with
  | None => mret tt
  | Some player =>
      pool ← gets (λ w, pills (gameState w));
      scanPills now playerId playerX playerY player pool
  end.

(** ** Connections *)

Definition playerUpdateOf (p : Player.t) (weaponAngle : float)
    (score : option Z) : PlayerUpdate :=
  {| pu_id := Player.id p; pu_x := Player.x p; pu_y := Player.y p;
     pu_health := Player.health p; pu_maxHealth := Player.maxHealth p;
     pu_color := Player.color p; pu_name := Player.name p;
     pu_direction := Player.direction p; pu_weaponAngle := weaponAngle;
     pu_score := score |}.

(** The [connection] handler. *)
Definition onConnection (now : Z) (socketId : jsstring) (r1 r2 : float)
    (colorIndex : nat) : M unit :=
  let spawn := getRandomSpawnPoint r1 r2 in
  playerNumber ← gets nextPlayerId;
  modify (set_nextPlayerId (S playerNumber));;
  let newPlayer :=
    Player.mk socketId (Some spawn.1) (Some spawn.2) 100 100
      (getRandomColor colorIndex)
      (js "Player " ++ js (pretty playerNumber))
      0 1%float 0%float 0 0 now None in
  modify (λ w, set_players (<[socketId := newPlayer]> (players (gameState w))) w);;
  modify (λ w, set_playerCount (size (players (gameState w))) w);;
  w ← gets id;
  let currentState :=
    {| sn_players := players (gameState w);
       sn_playerCount := playerCount (gameState w);
       sn_pills := pills (gameState w);
       sn_dailyLeaderboard :=
         {| ds_topScores :=
              take 10 (sortDesc DailyEntry.score
                         (JsMap.values (topScores (dailyLeaderboard w))));
            ds_timeRemaining := timeRemaining (dailyLeaderboard w);
            ds_currentDay := currentDay (dailyLeaderboard w) |};
       sn_allTimeLeaderboard := allTimeLeaderboard w |} in
  emit (ToSocket socketId) (gameStateMsg currentState);;
  emit ToAll (playerUpdate
    (playerUpdateOf newPlayer (orZero (Player.weaponAngle newPlayer)) None));;
  emit ToAll (playerCountUpdate (playerCount (gameState w))).

(** The [username] field of a [setUsername] payload. *)
Inductive usernameField :=
  | UsernameFalsy            (* absent, or a falsy value that is no string *)
  | UsernameString (s : jsstring)
  | UsernameOther.           (* a truthy value without a [trim] method *)

(** What a client can send with [setUsername]: a bare string (the old
    format), an object, or [null]/[undefined].  A [sessionToken] that is
    not a string is [None]: it is the key of no entry. *)
Inductive setUsernameData :=
  | BareString (s : jsstring)
  | UsernameObject (username : usernameField) (sessionToken : option jsstring)
  | UsernameNullish.

Definition onSetUsername (now : Z) (socketId : jsstring)
    (data : setUsernameData) : M unit :=
  player ← gets (λ w, players (gameState w) !! socketId);
  '(username, sessionToken) ←
    match data with
    | BareString s => mret (UsernameString s, None)
    | UsernameObject u t => mret (u, t)
    | UsernameNullish => throwTypeError
    end;
  match player, username with
  | Some _, UsernameOther => throwTypeError
  | Some _, UsernameString username =>
      if truthy username && bool_decide (0 < length (trim username)) then
        let cleanUsername := substring0 15 (trim username) in
        modifyPlayer socketId (Player.set_name cleanUsername);;
        tokens ← gets sessionTokens;
        restoredScore ←
          match sessionToken with
          | Some sessionToken =>
              if truthy sessionToken then
                match tokens !! sessionToken with
                | Some tokenData =>
                    if bool_decide (Token.name tokenData = cleanUsername) then
                      modify (set_sessionTokens (delete sessionToken tokens));;
                      mret (Token.score tokenData)
                    else mret 0%Z
                | None => mret 0%Z
                end
              else mret 0%Z
          | None => mret 0%Z
          end;
        modifyPlayer socketId (Player.set_score restoredScore);;
        let playerKey := cleanUsername ++ js "_" ++ socketId in
        modify (λ w, set_playerScores
          (<[playerKey := ScoreRecord.mk cleanUsername restoredScore now]>
             (playerScores w)) w);;
        savePlayerScores;;
        player ← gets (λ w, players (gameState w) !! socketId);
        match player with
        | Some p =>
            emit ToAll (playerUpdate
              (playerUpdateOf p (orZero (Player.weaponAngle p))
                 (Some (Player.score p))))
        | None => mret tt
        end
      else mret tt
  | _, _ => mret tt
  end.

(** The payload of [move]; [None] in a field is [undefined]. *)
Record MoveData := {
  md_x : jsnum;
  md_y : jsnum;
  md_direction : option float;
  md_weaponAngle : option float
}.

(** [data] is [None] when the client sent [null] or nothing. *)
Definition onMove (now : Z) (socketId : jsstring) (data : option MoveData)
    : M unit :=
  player ← gets (λ w, players (gameState w) !! socketId);
  match player with
  | Some player =>
      if (0 <? Player.health player)%Z then
        let timeSinceLastUpdate :=
          (now - default 0 (Player.lastMovementUpdate player))%Z in
        if (16 <=? timeSinceLastUpdate)%Z then
          match data with
          | None => throwTypeError
          | Some data =>
              modifyPlayer socketId (Player.set_x (md_x data));;
              modifyPlayer socketId (Player.set_y (md_y data));;
              match md_direction data with
              | Some d => modifyPlayer socketId (Player.set_direction d)
              | None => mret tt
              end;;
              match md_weaponAngle data with
              | Some a => modifyPlayer socketId (Player.set_weaponAngle a)
              | None => mret tt
              end;;
              modifyPlayer socketId (Player.set_lastActivity now);;
              modifyPlayer socketId (Player.set_lastMovementUpdate (Some now));;
              checkPillCollection now socketId (md_x data) (md_y data);;
              player ← gets (λ w, players (gameState w) !! socketId);
              match player with
              | Some p =>
                  emit (ToOthers socketId) (playerUpdate
                    (playerUpdateOf p (Player.weaponAngle p)
                       (Some (Player.score p))))
              | None => mret tt
              end
          end
        else mret tt
      else mret tt
  | None => mret tt
  end.

(** [respawn] only arms a timer. *)
Definition onRespawn (socketId : jsstring) : M unit :=
  player ← gets (λ w, players (gameState w) !! socketId);
  match player with
  | Some _ => modify (λ w, set_respawnTimers (respawnTimers w ++ [socketId]) w)
  | None => mret tt
  end.

(** The callback of the oldest pending respawn timer. *)
Definition respawnTimeout (r1 r2 : float) : M unit :=
  timers ← gets respawnTimers;
  match timers with
  | [] => mret tt
  | socketId :: timers' =>
      modify (set_respawnTimers timers');;
      player ← gets (λ w, players (gameState w) !! socketId);
      match player with
      | Some _ =>
          let spawn := getRandomSpawnPoint r1 r2 in
          modifyPlayer socketId (Player.set_x (Some spawn.1));;
          modifyPlayer socketId (Player.set_y (Some spawn.2));;
          modifyPlayer socketId (λ p, Player.set_health (Player.maxHealth p) p);;
          player ← gets (λ w, players (gameState w) !! socketId);
          match player with
          | Some p => emit ToAll (playerRespawned p)
          | None => mret tt
          end
      | None => mret tt
      end
  end.

(** The [disconnect] handler; [rnd] feeds [generateSessionToken]. *)
Definition onDisconnect (now : Z) (socketId : jsstring) (rnd : jsstring)
    : M unit :=
  player ← gets (λ w, players (gameState w) !! socketId);
  match player with
  | Some player =>
      (if truthy (Player.name player) && (0 <? Player.score player)%Z then
         updateDailyLeaderboard now socketId
           (Player.name player) (Player.score player);;
         let sessionToken := generateSessionToken now rnd in
         modify (λ w, set_sessionTokens
           (<[sessionToken :=
                Token.mk (Player.name player) (Player.score player) now]>
              (sessionTokens w)) w);;
         emit (ToSocket socketId)
           (sessionTokenMsg sessionToken
              (Player.name player) (Player.score player))
       else mret tt);;
      emit ToAll (playerLeft socketId);;
      modify (λ w, set_players (delete socketId (players (gameState w))) w);;
      modify (λ w, set_playerCount (size (players (gameState w))) w);;
      n ← gets (λ w, playerCount (gameState w));
      emit ToAll (playerCountUpdate n)
  | None => mret tt
  end.

(** ** Pill timers *)

(** The 100 ms interval that fills the pool at start. *)
Definition initialSpawnTick (now : Z) (rnd : jsstring) (r1 r2 : float)
    : M unit :=
  active ← gets initialSpawnInterval;
  if active : bool then
    spawned ← gets initialPillsSpawned;
    if bool_decide (spawned < MAX_PILLS) then
      generatePill now rnd r1 r2;;
      modify (set_initialPillsSpawned (S spawned))
    else modify (set_initialSpawnInterval false)
  else mret tt.

(** The interval of [PILL_SPAWN_INTERVAL] ms. *)
Definition spawnTick (now : Z) (rnd : jsstring) (r1 r2 : float) : M unit :=
  generatePill now rnd r1 r2.

(** ** The event loop *)

Inductive event :=
  | Connection (socketId : jsstring) (r1 r2 : float) (colorIndex : nat)
  | SetUsername (socketId : jsstring) (data : setUsernameData)
  | Move (socketId : jsstring) (data : option MoveData)
  | Respawn (socketId : jsstring)
  | RespawnTimeout (r1 r2 : float)
  | Disconnect (socketId : jsstring) (rnd : jsstring)
  | CountdownTick
  | FlushTick
  | CleanupTick
  | InitialSpawnTick (rnd : jsstring) (r1 r2 : float)
  | SpawnTick (rnd : jsstring) (r1 r2 : float).

(** One turn of the event loop, at clock reading [now]. *)
Definition step (now : Z) (e : event) : M unit :=
  match e with
  | Connection socketId r1 r2 colorIndex =>
      onConnection now socketId r1 r2 colorIndex
  | SetUsername socketId data => onSetUsername now socketId data
  | Move socketId data => onMove now socketId data
  | Respawn socketId => onRespawn socketId
  | RespawnTimeout r1 r2 => respawnTimeout r1 r2
  | Disconnect socketId rnd => onDisconnect now socketId rnd
  | CountdownTick => countdownTick now
  | FlushTick => flushTick
  | CleanupTick => cleanupExpiredTokens now
  | InitialSpawnTick rnd r1 r2 => initialSpawnTick now rnd r1 r2
  | SpawnTick rnd r1 r2 => spawnTick now rnd r1 r2
  end.

(** A run of the server: the events in the order the loop takes them.  A
    handler that throws ends the run. *)
Fixpoint run (events : list (Z * event)) (w : World) : option World :=
  match events with
  | [] => Some w
  | (now, e) :: events' =>
      match exec (step now e) w with
      | Some w' => run events' w'
      | None => None
      end
  end.

(** The state once the module has been loaded at [now], with none of the
    three files on disk. *)
Definition initialWorld (now : Z) : World :=
  let d := {| currentDay := toDateString now; topScores := [];
              resetTime := Some (nextMidnight now);
              timeRemaining := Z.max 0 (nextMidnight now - now) |} in
  {| gameState := {| players := ∅; playerCount := 0; pills := [] |};
     playerScores := ∅; sessionTokens := ∅; dailyLeaderboard := d;
     allTimeLeaderboard := []; nextPlayerId := 1; initialPillsSpawned := 0;
     initialSpawnInterval := true; respawnTimers := []; trace := [] |}.

End server.

(** ** Start and shutdown *)

(** What [existsSync], [readFileSync] and [JSON.parse] give for one of the
    three files: no file, a file that cannot be read or parsed (the
    [catch] branch), or the parsed document. *)
Inductive fileRead (A : Type) :=
  | NoFile
  | BadFile
  | Parsed (a : A).
Arguments NoFile {A}.
Arguments BadFile {A}.
Arguments Parsed {A} a.

(** The parsed daily file; [topScores] may be absent. *)
Record DailyDocument := {
  dd_currentDay : jsstring;
  dd_topScores : option (jsmap DailyEntry.t);
  dd_resetTime : option Z
}.

(** The value of a string of decimal digits. *)
Fixpoint parseDigits (acc : N) (s : jsstring) : option N :=
  match s with
  | [] => Some acc
  | c :: s' =>
      if (48 <=? c)%N && (c <=? 57)%N
      then parseDigits (acc * 10 + (c - 48)) s'
      else None
  end.

(** A property key is an array index when it is the canonical decimal
    form of an integer below 2^32 - 1. *)
Definition arrayIndex (key : jsstring) : option N :=
  match key with
  | [] => None
  | c :: rest =>
      if (c =? 48)%N && negb (bool_decide (rest = [])) then None
      else
        match parseDigits 0 key with
        | Some n => if (n <=? 4294967294)%N then Some n else None
        | None => None
        end
  end.

Fixpoint insertByIndex {V} (i : N) (e : jsstring * V)
    (l : list (N * (jsstring * V))) : list (N * (jsstring * V)) :=
  match l with
  | [] => [(i, e)]
  | (j, e') :: l' =>
      if (i <? j)%N then (i, e) :: l else (j, e') :: insertByIndex i e l'
  end.

(** The order in which an object lists its own properties: the array
    indices in ascending order, then the other keys in the order they were
    created.  It is the order of the entries after
    [Object.fromEntries], [JSON.stringify], [JSON.parse] and
    [Object.entries]. *)
Definition ownPropertyOrder {V} (entries : jsmap V) : jsmap V :=
  let indexed :=
    foldr (λ e acc, match arrayIndex e.1 with
                    | Some i => insertByIndex i e acc
                    | None => acc
                    end) [] entries in
  indexed.*2 ++ filter (λ e, arrayIndex e.1 = None) entries.

Definition loadPlayerScores (file : fileRead (gmap jsstring ScoreRecord.t))
    : M unit :=
  match file with
  | NoFile => mret tt
  | BadFile => modify (set_playerScores ∅)
  | Parsed parsed => modify (set_playerScores parsed)
  end.

Definition loadAllTimeLeaderboard (file : fileRead (list AllTimeEntry.t))
    : M unit :=
  match file with
  | NoFile => mret tt
  | BadFile => modify (set_allTimeLeaderboard [])
  | Parsed parsed => modify (set_allTimeLeaderboard parsed)
  end.

Section startup.
Context `{Host}.

Definition loadDailyLeaderboard (now : Z) (file : fileRead DailyDocument)
    : M unit :=
  match file with
  | Parsed parsed =>
      if bool_decide (dd_currentDay parsed = toDateString now) then
        modify (λ w, set_dailyLeaderboard
          (set_currentDay (dd_currentDay parsed) (dailyLeaderboard w)) w);;
        modify (λ w, set_dailyLeaderboard
          (set_topScores
             (ownPropertyOrder (default [] (dd_topScores parsed)))
             (dailyLeaderboard w)) w);;
        modify (λ w, set_dailyLeaderboard
          (set_resetTime (dd_resetTime parsed) (dailyLeaderboard w)) w)
      else mret tt
  | _ => mret tt
  end.

(** The module-level variables as their initialisers leave them. *)
Definition moduleInit (now : Z) : World :=
  {| gameState := {| players := ∅; playerCount := 0; pills := [] |};
     playerScores := ∅; sessionTokens := ∅;
     dailyLeaderboard :=
       {| currentDay := toDateString now; topScores := [];
          resetTime := None; timeRemaining := 0 |};
     allTimeLeaderboard := []; nextPlayerId := 1; initialPillsSpawned := 0;
     initialSpawnInterval := true; respawnTimers := []; trace := [] |}.

(** The four calls made while the module loads. *)
Definition startup (now : Z)
    (scoresFile : fileRead (gmap jsstring ScoreRecord.t))
    (dailyFile : fileRead DailyDocument)
    (allTimeFile : fileRead (list AllTimeEntry.t)) : M unit :=
  loadPlayerScores scoresFile;;
  loadDailyLeaderboard now dailyFile;;
  loadAllTimeLeaderboard allTimeFile;;
  initializeDailyReset now.

(** [gracefulShutdown], up to [process.exit]. *)
Definition gracefulShutdown : M unit :=
  savePlayerScores;;
  saveDailyLeaderboard;;
  saveAllTimeLeaderboard.
End startup.

(** What a file holds after the writes of a trace, when every write went
    through and the file was not there before: what the last write to it
    put there. *)
Definition lastWrite {A} (pick : document → option A) (t : list effect)
    : fileRead A :=
  match last (omap (λ e, match e with
                         | WriteFile d => pick d
                         | Emit _ _ => None
                         end) t) with
  | Some a => Parsed a
  | None => NoFile
  end.

Definition scoresWritten (d : document)
    : option (gmap jsstring ScoreRecord.t) :=
  match d with PlayerScoresFile m => Some m | _ => None end.

Definition dailyWritten (d : document) : option DailyDocument :=
  match d with
  | DailyLeaderboardFile day top reset =>
      Some {| dd_currentDay := day; dd_topScores := Some top;
              dd_resetTime := reset |}
  | _ => None
  end.

Definition allTimeWritten (d : document) : option (list AllTimeEntry.t) :=
  match d with AllTimeLeaderboardFile l => Some l | _ => None end.

(** ** A host on UTC

    The calendar of a machine whose time zone is UTC and whose locale is
    en-US, for running the server on concrete inputs. *)
Module Utc.
Definition MS_PER_DAY : Z := 86400000.

(** Year, month and day of the civil date [days] days after 1 January 1970. *)
Definition civil (days : Z) : Z * Z * Z :=
  let z := (days + 719468)%Z in
  let era := (z / 146097)%Z in
  let doe := (z - era * 146097)%Z in
  let yoe := ((doe - doe / 1460 + doe / 36524 - doe / 146096) / 365)%Z in
  let doy := (doe - (365 * yoe + yoe / 4 - yoe / 100))%Z in
  let mp := ((5 * doy + 2) / 153)%Z in
  let d := (doy - (153 * mp + 2) / 5 + 1)%Z in
  let m := (if (mp <? 10)%Z then mp + 3 else mp - 9)%Z in
  let y := (yoe + era * 400 + (if (m <=? 2)%Z then 1 else 0))%Z in
  (y, m, d).

Definition dayName (days : Z) : string :=
  default "Sun"%string
    (["Sun"; "Mon"; "Tue"; "Wed"; "Thu"; "Fri"; "Sat"]%string
       !! Z.to_nat ((days + 4) `mod` 7)).

Definition monthName (m : Z) : string :=
  default "Jan"%string
    (["Jan"; "Feb"; "Mar"; "Apr"; "May"; "Jun"; "Jul"; "Aug"; "Sep"; "Oct";
      "Nov"; "Dec"]%string !! Z.to_nat (m - 1)).

Definition twoDigits (d : Z) : string :=
  if (d <? 10)%Z then ("0" ++ pretty d)%string else pretty d.

Definition dateString (now : Z) : jsstring :=
  let days := (now / MS_PER_DAY)%Z in
  let '(y, m, d) := civil days in
  js (dayName days ++ " " ++ monthName m ++ " " ++ twoDigits d ++ " "
      ++ pretty y)%string.

Definition localeDateString (now : Z) : jsstring :=
  let '(y, m, d) := civil (now / MS_PER_DAY) in
  js (pretty m ++ "/" ++ pretty d ++ "/" ++ pretty y)%string.

Definition midnightAfter (now : Z) : Z := ((now / MS_PER_DAY + 1) * MS_PER_DAY)%Z.

Definition host : Host :=
  {| toDateString := dateString;
     toLocaleDateString := localeDateString;
     nextMidnight := midnightAfter |}.
End Utc.

(** ** Properties the claims speak of *)

(** Highest score first, ties allowed. *)
Definition descending {A} (score : A → Z) (l : list A) : Prop :=
  StronglySorted (λ a b, (score b ≤ score a)%Z) l.

(** Highest score first, no two scores equal. *)
Definition strictlyDescending {A} (score : A → Z) (l : list A) : Prop :=
  StronglySorted (λ a b, (score b < score a)%Z) l.

Definition uniqueNames (board : list AllTimeEntry.t) : Prop :=
  NoDup (AllTimeEntry.name <$> board).

Definition allTimeInvariant (board : list AllTimeEntry.t) : Prop :=
  length board ≤ 3 ∧ descending AllTimeEntry.score board ∧ uniqueNames board.

(** A computation keeps a property of the world. *)
Definition preserves {A} (P : World → Prop) (c : M A) : Prop :=
  ∀ w a w', P w → c w = Ok a w' → P w'.

(** The score of a connected player. *)
Definition scoreOf (socketId : jsstring) (w : World) : option Z :=
  Player.score <$> players (gameState w) !! socketId.

(** ** The vocabulary of the claims *)

(** A property that does not read the trace. *)
Definition traceBlind (P : World → Prop) : Prop :=
  ∀ w t, P w → P (set_trace t w).

(** The pool is within its capacity. *)
Definition poolBounded (w : World) : Prop :=
  JsMap.size (pills (gameState w)) ≤ MAX_PILLS.

(** The two timers that call [generatePill]. *)
Definition isSpawnTick (e : event) : bool :=
  match e with
  | InitialSpawnTick _ _ _ | SpawnTick _ _ _ => true
  | _ => false
  end.

Definition poolAtMost (n : nat) (w : World) : Prop :=
  JsMap.size (pills (gameState w)) ≤ n.

(** No two pills of the pool share an id. *)
Definition poolWf (w : World) : Prop := JsMap.wf (pills (gameState w)).

Definition boardInvariant (w : World) : Prop :=
  allTimeInvariant (allTimeLeaderboard w).

(** The world a [setUsername] with a usable name leaves behind: the player
    renamed and given [restoredScore], the ledger entry of this session
    upserted and written out, the player broadcast; [tokens] is the token
    store afterwards. *)
Definition afterSetUsername (w : World) (socketId : jsstring) (p : Player.t)
    (cleanUsername : jsstring) (restoredScore : Z)
    (tokens : gmap jsstring Token.t) (now : Z) : World :=
  let p' := Player.set_score restoredScore (Player.set_name cleanUsername p) in
  let ledger :=
    <[cleanUsername ++ js "_" ++ socketId :=
        ScoreRecord.mk cleanUsername restoredScore now]> (playerScores w) in
  {| gameState :=
       {| players := <[socketId := p']> (players (gameState w));
          playerCount := playerCount (gameState w);
          pills := pills (gameState w) |};
     playerScores := ledger;
     sessionTokens := tokens;
     dailyLeaderboard := dailyLeaderboard w;
     allTimeLeaderboard := allTimeLeaderboard w;
     nextPlayerId := nextPlayerId w;
     initialPillsSpawned := initialPillsSpawned w;
     initialSpawnInterval := initialSpawnInterval w;
     respawnTimers := respawnTimers w;
     trace := trace w ++
       [WriteFile (PlayerScoresFile ledger);
        Emit ToAll (playerUpdate
          (playerUpdateOf p' (orZero (Player.weaponAngle p'))
             (Some restoredScore)))] |}.

(** The test of the sweep. *)
Definition expired (now : Z) (data : Token.t) : bool :=
  (TWENTY_FOUR_HOURS <? now - Token.created data)%Z.

(** The player record after an accepted [move]. *)
Definition movedPlayer (p : Player.t) (data : MoveData) (now : Z) : Player.t :=
  Player.mk (Player.id p) (md_x data) (md_y data) (Player.health p)
    (Player.maxHealth p) (Player.color p) (Player.name p) (Player.angle p)
    (default (Player.direction p) (md_direction data))
    (default (Player.weaponAngle p) (md_weaponAngle data))
    (Player.kills p) (Player.score p) now (Some now).

(** The end of the [move] handler: the broadcast to the other sockets. *)
Definition announceMove (socketId : jsstring) : M unit :=
  player ← gets (λ w, players (gameState w) !! socketId);
  match player with
  | Some p =>
      emit (ToOthers socketId) (playerUpdate
        (playerUpdateOf p (Player.weaponAngle p) (Some (Player.score p))))
  | None => mret tt
  end.

Definition outOfReach (playerX playerY : jsnum) (entry : jsstring * Pill.t)
    : Prop :=
  inReach playerX playerY entry.2 = false.

(** The broadcast of a collection. *)
Definition isPillCollected (e : effect) : bool :=
  match e with
  | Emit _ (pillCollected _ _ _ _) => true
  | _ => false
  end.

(** The stamp of the last accepted move of a connection: [None] when the
    player is gone, [Some None] before the first accepted move. *)
Definition lastMoveOf (socketId : jsstring) (w : World) : option (option Z) :=
  Player.lastMovementUpdate <$> players (gameState w) !! socketId.

Definition isConnectionOf (socketId : jsstring) (e : event) : bool :=
  match e with
  | Connection s _ _ _ => bool_decide (s = socketId)
  | _ => false
  end.

Definition isMoveOf (socketId : jsstring) (e : event) : bool :=
  match e with
  | Move s _ => bool_decide (s = socketId)
  | _ => false
  end.

(** A handler left more on the trace than it found. *)
Definition grew (w w' : World) : bool :=
  bool_decide (length (trace w) < length (trace w')).

(** The stamp is kept, or the player has left. *)
Definition viewKept (v : option (option Z)) (socketId : jsstring)
    (w : World) : Prop :=
  lastMoveOf socketId w = v ∨ lastMoveOf socketId w = None.

Definition spaced (ts : list Z) : Prop :=
  StronglySorted (λ t1 t2, (16 ≤ t2 - t1)%Z) ts.

Section accepted_moves.
Context `{Host}.

(** The clock readings of the moves of [socketId] that a run accepts: a
    move is accepted when its handler goes through to the broadcast, and
    dropped when it leaves the world as it was. *)
Fixpoint acceptedMoves (socketId : jsstring) (events : list (Z * event))
    (w : World) : list Z :=
  match events with
  | [] => []
  | (now, e) :: events' =>
      match exec (step now e) w with
      | None => []
      | Some w' =>
          (if isMoveOf socketId e && grew w w' then [now] else [])
          ++ acceptedMoves socketId events' w'
      end
  end.
End accepted_moves.

(** ** More vocabulary: what the handlers keep *)

(** What [updateDailyLeaderboard] broadcasts of a daily board. *)
Definition shownDaily (board : jsmap DailyEntry.t) : list DailyEntry.t :=
  take 10 (sortDesc DailyEntry.score (JsMap.values board)).

(** Every entry of the daily board is filed under its own name, and no
    name is filed twice. *)
Definition dailyKeyed (w : World) : Prop :=
  JsMap.wf (topScores (dailyLeaderboard w))
  ∧ Forall (λ e, DailyEntry.name e.2 = e.1) (topScores (dailyLeaderboard w)).

(** The player record after the respawn timer has fired. *)
Definition respawnedPlayer (p : Player.t) (r1 r2 : float) : Player.t :=
  Player.set_health (Player.maxHealth p)
    (Player.set_y (Some (getRandomSpawnPoint r1 r2).2)
       (Player.set_x (Some (getRandomSpawnPoint r1 r2).1) p)).

(** [playerCount] is the size of the registry. *)
Definition countConsistent (w : World) : Prop :=
  playerCount (gameState w) = size (players (gameState w)).

(** The start-up timer has not spent more than its thirty attempts. *)
Definition rampWithinBudget (w : World) : Prop :=
  initialPillsSpawned w ≤ MAX_PILLS.

(** The start-up timer is cleared, after [n] attempts. *)
Definition rampStopped (n : nat) (w : World) : Prop :=
  initialSpawnInterval w = false ∧ initialPillsSpawned w = n.

(** The ledger has an entry under each of [keys]. *)
Definition ledgerKeeps (keys : gset jsstring) (w : World) : Prop :=
  keys ⊆ dom (playerScores w).

Definition isConnection (e : event) : bool :=
  match e with Connection _ _ _ _ => true | _ => false end.

(** The number of connections among the events of a run. *)
Fixpoint connections (events : list (Z * event)) : nat :=
  match events with
  | [] => 0
  | (_, e) :: events' =>
      (if isConnection e then 1 else 0) + connections events'
  end.

Definition nextIdIs (n : nat) (w : World) : Prop := nextPlayerId w = n.

Definition tokensAre (store : gmap jsstring Token.t) (w : World) : Prop :=
  sessionTokens w = store.

Definition timersAre (timers : list jsstring) (w : World) : Prop :=
  respawnTimers w = timers.

Definition isDisconnect (e : event) : bool :=
  match e with Disconnect _ _ => true | _ => false end.

(** The events whose handlers write to the token store. *)
Definition touchesTokens (e : event) : bool :=
  match e with
  | Disconnect _ _ | SetUsername _ _ | CleanupTick => true
  | _ => false
  end.

(** Every pill of the pool is filed under its own id and is worth one
    point. *)
Definition pillsSound (w : World) : Prop :=
  Forall (λ e, Pill.id e.2 = e.1 ∧ Pill.points e.2 = 1%Z)
    (pills (gameState w)).

(** No connected player has a negative score. *)
Definition scoresSound (w : World) : Prop :=
  ∀ socketId p,
    players (gameState w) !! socketId = Some p → (0 ≤ Player.score p)%Z.

(** Every stored token binds a name and a positive score. *)
Definition tokensSound (w : World) : Prop :=
  ∀ tok td,
    sessionTokens w !! tok = Some td →
    Token.name td ≠ [] ∧ (0 < Token.score td)%Z.

Definition accountsSound (w : World) : Prop :=
  pillsSound w ∧ scoresSound w ∧ tokensSound w.

(** Each score of [board] is matched or beaten on the board of [w]. *)
Definition boardCovers (board : list AllTimeEntry.t) (w : World) : Prop :=
  ∀ e, e ∈ board →
       ∃ e', e' ∈ allTimeLeaderboard w
             ∧ (AllTimeEntry.score e ≤ AllTimeEntry.score e')%Z.

(** The characters [pretty] writes an integer with. *)
Definition isDigitOrDash (a : ascii) : Prop :=
  a ∈ ["0"; "1"; "2"; "3"; "4"; "5"; "6"; "7"; "8"; "9"; "-"]%char.

Fixpoint chars (s : string) : list ascii :=
  match s with EmptyString => [] | String a s' => a :: chars s' end.

(** The score file holds the ledger: the last write put the present
    ledger there, or nothing was written and the ledger is empty. *)
Definition scoresOnDisk (w : World) : Prop :=
  lastWrite scoresWritten (trace w) = Parsed (playerScores w)
  ∨ (lastWrite scoresWritten (trace w) = NoFile ∧ playerScores w = ∅).

Definition allTimeOnDisk (w : World) : Prop :=
  lastWrite allTimeWritten (trace w) = Parsed (allTimeLeaderboard w)
  ∨ (lastWrite allTimeWritten (trace w) = NoFile ∧ allTimeLeaderboard w = []).

(** The daily file holds the day, the board and the reset time; the time
    remaining is not written. *)
Definition dailyOnDisk (w : World) : Prop :=
  lastWrite dailyWritten (trace w)
    = Parsed {| dd_currentDay := currentDay (dailyLeaderboard w);
                dd_topScores := Some (topScores (dailyLeaderboard w));
                dd_resetTime := resetTime (dailyLeaderboard w) |}
  ∨ (lastWrite dailyWritten (trace w) = NoFile
     ∧ topScores (dailyLeaderboard w) = []).

Definition diskSynced (w : World) : Prop :=
  scoresOnDisk w ∧ dailyOnDisk w ∧ allTimeOnDisk w.

(** ** Scenarios

    Concrete runs on the UTC host, used to exercise the theorems. *)
Module Scenario.
Definition socketA : jsstring := js "socket-a".
Definition socketB : jsstring := js "socket-b".

Definition moveTo (x y : float) : option MoveData :=
  Some {| md_x := Some x; md_y := Some y;
          md_direction := None; md_weaponAngle := None |}.

Definition boot : World := @initialWorld Utc.host 0.

(** Two players, two pills, each player walks onto one pill.  The draws
    0.5, 0.5 put a pill at (2400, 1600); 0.25, 0.25 at (1250, 850). *)
Definition twoCollectors : list (Z * event) :=
  [(1000, Connection socketA 0 0 0);
   (1010, Connection socketB 0 0 1);
   (1100, SetUsername socketA (BareString (js "Alice")));
   (1110, SetUsername socketB (BareString (js "Bob")));
   (1200, SpawnTick (js "0.11") 0.5 0.5);
   (1700, SpawnTick (js "0.42") 0.25 0.25);
   (1800, Move socketA (moveTo 2400 1600));
   (1810, Move socketB (moveTo 1250 850))]%Z%float.
End Scenario.

(** *** A reconnection after a day

    Alice collects one pill and disconnects half an hour after the server
    started; the sweep runs every hour; a second connection arrives after
    the twenty-fourth sweep and before the twenty-fifth. *)
Module Reconnect.
Import Scenario.

Definition rnd : jsstring := js "k3j9x0q1z".
Definition aliceToken : jsstring := generateSessionToken 1800000 rnd.

Definition collectRun : list (Z * event) :=
  [(1000000, Connection socketA 0 0 0);
   (1001000, SetUsername socketA (BareString (js "Alice")));
   (1002000, SpawnTick (js "0.11") 0.5 0.5);
   (1003000, Move socketA (moveTo 2400 1600))]%Z%float.

Definition hourlySweeps : list (Z * event) :=
  (λ k, (k * 3600000, CleanupTick)%Z) <$> seqZ 1 24.

Definition dayRun : list (Z * event) :=
  collectRun
  ++ [(1800000, Disconnect socketA rnd)]%Z
  ++ hourlySweeps
  ++ [(88000000, Connection socketB 0 0 1)]%Z%float.

Definition afterCollect : World := default boot (@run Utc.host collectRun boot).
Definition afterDay : World := default boot (@run Utc.host dayRun boot).

(** Alice on the pill, and the newcomer. *)
Definition alice : Player.t :=
  Player.mk socketA (Some 2400%float) (Some 1600%float) 100 100 (js "#00d4ff")
    (js "Alice") 0 1%float 0%float 0 1 1003000 (Some 1003000%Z).
Definition newcomer : Player.t :=
  Player.mk socketB (Some 100%float) (Some 100%float) 100 100 (js "#7c3aed")
    (js "Player 2") 0 1%float 0%float 0 0 88000000 None.

Definition presentAs (name : string) : setUsernameData :=
  UsernameObject (UsernameString (js name)) (Some aliceToken).
End Reconnect.

(** *** Two pills on one point *)
Module Overlap.
Import Scenario.

Definition twoPillsRun : list (Z * event) :=
  [(1000000, Connection socketA 0 0 0);
   (1001000, SetUsername socketA (BareString (js "Alice")));
   (1002000, SpawnTick (js "0.11") 0.5 0.5);
   (1002500, SpawnTick (js "0.42") 0.5 0.5)]%Z%float.

Definition start : World := default boot (@run Utc.host twoPillsRun boot).

Definition alice : Player.t :=
  Player.mk socketA (Some 100%float) (Some 100%float) 100 100 (js "#00d4ff")
    (js "Alice") 0 1%float 0%float 0 0 1000000 None.

Definition pillAt (id : string) (spawnTime : Z) : jsstring * Pill.t :=
  (js id, Pill.mk (js id) 2400 1600 1 spawnTime).

Definition pool : jsmap Pill.t :=
  [pillAt "pill_1002000_0.11" 1002000; pillAt "pill_1002500_0.42" 1002500].

End Overlap.

(** *** A burst of moves *)
Module Burst.
Import Scenario.

Definition connected : World :=
  default boot (@run Utc.host [(1000000, Connection socketA 0 0 0)]%Z%float boot).

(** Five moves, 10, 6, 14 and 10 ms apart. *)
Definition moves : list (Z * event) :=
  [(1003000, Move socketA (moveTo 200 200));
   (1003010, Move socketA (moveTo 210 200));
   (1003016, Move socketA (moveTo 220 200));
   (1003030, Move socketA (moveTo 230 200));
   (1003040, Move socketA (moveTo 240 200))]%Z%float.
End Burst.

(** ** Insertion-ordered maps: facts *)

Section jsmap_facts.
Context {V : Type}.
Implicit Types (m : jsmap V) (k : jsstring) (v : V).

Lemma jsmap_set_length m k v :
  JsMap.size (JsMap.set k v m) ≤ S (JsMap.size m).
Proof.
  unfold JsMap.size. induction m as [|[k' v'] m IH]; simpl; [lia|].
  case_decide; simpl; lia.
Qed.

Lemma jsmap_delete_length m k : JsMap.size (JsMap.delete k m) ≤ JsMap.size m.
Proof.
  unfold JsMap.size. induction m as [|[k' v'] m IH]; simpl; [lia|].
  case_decide; simpl; lia.
Qed.

Lemma jsmap_delete_middle (l1 l2 : jsmap V) k v :
  k ∉ JsMap.keys l1 → JsMap.delete k (l1 ++ (k, v) :: l2) = l1 ++ l2.
Proof.
  unfold JsMap.keys. induction l1 as [|[k' v'] l1 IH]; simpl; intros Hk.
  - by rewrite decide_True.
  - rewrite not_elem_of_cons in Hk. destruct Hk as [Hne Hk].
    rewrite decide_False by done. by rewrite IH.
Qed.

Lemma jsmap_keys_set m k v :
  JsMap.keys (JsMap.set k v m) = JsMap.keys m
  ∨ ((k ∉ JsMap.keys m)
     ∧ JsMap.keys (JsMap.set k v m) = JsMap.keys m ++ [k]).
Proof.
  unfold JsMap.keys. induction m as [|[k' v'] m IH]; csimpl.
  - right. split; [apply not_elem_of_nil | done].
  - case_decide as Hk; csimpl; [subst; by left|].
    destruct IH as [-> | [Hnot ->]]; [by left|]. right.
    split; [|done]. rewrite not_elem_of_cons. by split.
Qed.

Lemma jsmap_wf_set m k v : JsMap.wf m → JsMap.wf (JsMap.set k v m).
Proof.
  unfold JsMap.wf. intros Hm.
  destruct (jsmap_keys_set m k v) as [-> | [Hnot ->]]; [done|].
  apply NoDup_app. split; [done|]. split; [|apply NoDup_singleton].
  intros x Hx Hx'. apply list_elem_of_singleton in Hx'. by subst.
Qed.

Lemma jsmap_keys_delete m k :
  (JsMap.keys (JsMap.delete k m)) `sublist_of` (JsMap.keys m).
Proof.
  unfold JsMap.keys. induction m as [|[k' v'] m IH]; csimpl; [done|].
  case_decide; csimpl; [by apply sublist_cons | by apply sublist_skip].
Qed.

Lemma jsmap_wf_delete m k : JsMap.wf m → JsMap.wf (JsMap.delete k m).
Proof.
  unfold JsMap.wf. intros Hm.
  eapply sublist_NoDup; [exact Hm | apply jsmap_keys_delete].
Qed.
End jsmap_facts.

(** ** The sort: facts *)

Section sort_facts.
Context {A : Type} (score : A → Z).
Implicit Types (a : A) (l : list A).

Lemma insertDesc_perm a l : insertDesc score a l ≡ₚ a :: l.
Proof.
  induction l as [|b l IH]; simpl; [done|].
  destruct (score a <? score b)%Z; [|done].
  rewrite IH. apply Permutation_swap.
Qed.

Lemma sortDesc_perm l : sortDesc score l ≡ₚ l.
Proof.
  induction l as [|a l IH]; simpl; [done|].
  fold (sortDesc score l). by rewrite insertDesc_perm, IH.
Qed.

Lemma insertDesc_descending a l :
  descending score l → descending score (insertDesc score a l).
Proof.
  unfold descending. induction 1 as [|b l Hl IH Hb]; simpl.
  - repeat constructor.
  - destruct (score a <? score b)%Z eqn:E.
    + constructor; [done|]. rewrite insertDesc_perm.
      constructor; [lia | done].
    + constructor; [by constructor|].
      constructor; [lia|]. eapply Forall_impl; [exact Hb|]. simpl. lia.
Qed.

Lemma sortDesc_descending l : descending score (sortDesc score l).
Proof.
  induction l as [|a l IH]; simpl; [constructor|].
  by apply insertDesc_descending.
Qed.

(** The sort is stable, so it leaves a sorted list as it is. *)
Lemma sortDesc_sorted_id l : descending score l → sortDesc score l = l.
Proof.
  unfold descending. induction 1 as [|a l Hl IH Ha]; simpl; [done|].
  fold (sortDesc score l). rewrite IH. destruct Ha as [|b l Hb _]; simpl; [done|].
  by rewrite (proj2 (Z.ltb_ge _ _)).
Qed.

Lemma descending_take n l : descending score l → descending score (take n l).
Proof.
  unfold descending. revert n. induction l as [|a l IH]; intros [|n] Hl; simpl;
    try constructor.
  - apply IH. by inversion Hl.
  - inversion Hl as [|?? _ Ha]; subst.
    eapply Forall_forall. intros b Hb. rewrite Forall_forall in Ha.
    apply Ha. by eapply subseteq_take.
Qed.
End sort_facts.

(** ** Reasoning about handlers *)

Section preserves_rules.
Context {A B : Type} (P : World → Prop).

Lemma preserves_ret (a : A) : preserves P (mret a).
Proof. intros w a' w' HP [= _ <-]. done. Qed.

Lemma preserves_bind (c : M A) (f : A → M B) :
  preserves P c → (∀ a, preserves P (f a)) → preserves P (c ≫= f).
Proof.
  intros Hc Hf w b w' HP. unfold mbind, M_bind.
  destruct (c w) as [a w1|] eqn:E; [|done]. intros Hfw.
  eapply Hf; [|exact Hfw]. eapply Hc; [exact HP | exact E].
Qed.

Lemma preserves_gets (f : World → A) : preserves P (gets f).
Proof. intros w a' w' HP [= _ <-]. done. Qed.

Lemma preserves_throw : preserves P (@throwTypeError A).
Proof. intros w a' w' HP. done. Qed.

Lemma preserves_modify (f : World → World) :
  (∀ w, P w → P (f w)) → preserves P (modify f).
Proof. intros Hf w a' w' HP [= _ <-]. by apply Hf. Qed.
End preserves_rules.

Lemma preserves_emit P to m : traceBlind P → preserves P (emit to m).
Proof. intros HP. apply preserves_modify. intros w. apply HP. Qed.

Lemma preserves_writeFileSync P d : traceBlind P → preserves P (writeFileSync d).
Proof. intros HP. apply preserves_modify. intros w. apply HP. Qed.

(** Taking a handler apart along its binds and branches. *)
Ltac preserve_step :=
  lazymatch goal with
  | |- preserves _ (mret _) => apply preserves_ret
  | |- preserves _ (_ ≫= _) => apply preserves_bind; [|intros]
  | |- preserves _ (gets _) => apply preserves_gets
  | |- preserves _ throwTypeError => apply preserves_throw
  | |- preserves _ (emit _ _) => apply preserves_emit
  | |- preserves _ (writeFileSync _) => apply preserves_writeFileSync
  | |- preserves _ (if ?b then _ else _) => destruct b
  | |- preserves _ (match ?x with _ => _ end) => destruct x
  | |- preserves _ (let _ := _ in _) => cbv zeta
  end.

Lemma exec_Some {A} (c : M A) w w' :
  exec c w = Some w' ↔ ∃ a, c w = Ok a w'.
Proof.
  unfold exec. destruct (c w) as [a w1|]; split.
  - intros [= <-]. by exists a.
  - by intros [a' [= _ <-]].
  - done.
  - by intros [a' ?].
Qed.

Lemma preserves_exec {A} P (c : M A) w w' :
  preserves P c → P w → exec c w = Some w' → P w'.
Proof. intros Hc HP [a E]%exec_Some. by eapply Hc. Qed.

(** ** The all-time leaderboard: ranking *)

Section allTime_facts.
Implicit Types (e : AllTimeEntry.t) (board : list AllTimeEntry.t).

Lemma find_name_absent board name :
  name ∉ AllTimeEntry.name <$> board →
  list_find (λ entry, AllTimeEntry.name entry = name) board = None.
Proof.
  intros Hn. apply list_find_None, Forall_forall. intros e He Heq.
  apply Hn. rewrite <- Heq. by apply list_elem_of_fmap_2.
Qed.

Lemma find_name_first (l1 l2 : list AllTimeEntry.t) e :
  AllTimeEntry.name e ∉ AllTimeEntry.name <$> l1 →
  list_find (λ entry, AllTimeEntry.name entry = AllTimeEntry.name e)
    (l1 ++ e :: l2) = Some (length l1, e).
Proof.
  induction l1 as [|a l1 IH]; simpl; intros Hn.
  - by rewrite decide_True.
  - rewrite not_elem_of_cons in Hn. destruct Hn as [Hne Hn].
    rewrite decide_False by done. by rewrite IH.
Qed.

Lemma insert_at_length {X} (l1 l2 : list X) (a b : X) :
  <[length l1 := b]> (l1 ++ a :: l2) = l1 ++ b :: l2.
Proof. induction l1 as [|c l1 IH]; simpl; [done | by rewrite IH]. Qed.

Lemma rankAllTime_length e board : length (rankAllTime e board) ≤ 3.
Proof. unfold rankAllTime. rewrite length_take. lia. Qed.

Lemma rankAllTime_descending e board :
  descending AllTimeEntry.score (rankAllTime e board).
Proof. unfold rankAllTime. apply descending_take, sortDesc_descending. Qed.

Lemma uniqueNames_take_sort board :
  uniqueNames board →
  uniqueNames (take 3 (sortDesc AllTimeEntry.score board)).
Proof.
  unfold uniqueNames. intros Hb. rewrite fmap_take.
  eapply sublist_NoDup; [|apply sublist_take]. by rewrite sortDesc_perm.
Qed.

Lemma rankAllTime_unique e board :
  uniqueNames board → uniqueNames (rankAllTime e board).
Proof.
  intros Hb. unfold rankAllTime. apply uniqueNames_take_sort.
  destruct (list_find _ board) as [[i x]|] eqn:E.
  - destruct (_ <? _)%Z; [|done].
    apply list_find_Some in E as (Hi & Hx & _).
    unfold uniqueNames. rewrite list_fmap_insert, <- Hx.
    rewrite list_insert_id; [done|]. by rewrite list_lookup_fmap, Hi.
  - apply list_find_None in E. unfold uniqueNames.
    rewrite fmap_app. apply NoDup_app. split; [done|]. split.
    + intros n [x [-> Hx]]%list_elem_of_fmap Hn.
      apply list_elem_of_singleton in Hn. rewrite Forall_forall in E.
      by apply (E x).
    + apply NoDup_singleton.
Qed.

Lemma rankAllTime_invariant e board :
  uniqueNames board → allTimeInvariant (rankAllTime e board).
Proof.
  intros Hb. repeat split.
  - apply rankAllTime_length.
  - apply rankAllTime_descending.
  - by apply rankAllTime_unique.
Qed.

(** A board that already is a top three is a fixed point of the sort and
    the truncation. *)
Lemma take_sort_invariant_id board :
  allTimeInvariant board →
  take 3 (sortDesc AllTimeEntry.score board) = board.
Proof.
  intros (Hlen & Hdesc & _). rewrite sortDesc_sorted_id by done.
  by apply take_ge.
Qed.
End allTime_facts.

Section allTime_handler.
Context `{Host}.

Lemma updateAllTimeLeaderboard_run now name score w :
  let board' :=
    rankAllTime (AllTimeEntry.mk name score now (toLocaleDateString now))
      (allTimeLeaderboard w) in
  updateAllTimeLeaderboard now name score w =
    Ok tt (set_trace
             (trace w ++ [WriteFile (AllTimeLeaderboardFile board');
                          Emit ToAll (allTimeLeaderboardUpdate board')])
             (set_allTimeLeaderboard board' w)).
Proof.
  unfold updateAllTimeLeaderboard, set_trace, set_allTimeLeaderboard. simpl.
  unfold mbind, M_bind, modify, saveAllTimeLeaderboard, gets, emit,
    writeFileSync, modify, mbind, M_bind. simpl.
  unfold set_trace. simpl. by rewrite <- app_assoc.
Qed.
End allTime_handler.

(** Unfolding the handlers down to the primitive computations; the scan,
    which is recursive, is left folded. *)
Ltac unfold_handlers :=
  unfold step, onConnection, onSetUsername, onMove, onRespawn, respawnTimeout,
    onDisconnect, countdownTick, flushTick, cleanupExpiredTokens,
    initialSpawnTick, spawnTick, generatePill, checkPillCollection,
    collectPill, updateDailyLeaderboard, updateAllTimeLeaderboard,
    resetDailyLeaderboard, updateTimeRemaining, initializeDailyReset,
    savePlayerScores, saveDailyLeaderboard, saveAllTimeLeaderboard,
    modifyPlayer.

(** [preserve tac] splits a handler into its primitive updates and gives
    each one to [tac]; [scan] is the rule for the pill scan. *)
Ltac preserve scan tac :=
  unfold_handlers;
  repeat first
    [ preserve_step
    | lazymatch goal with
      | |- preserves _ (scanPills _ _ _ _ _ _) => apply scan
      | |- preserves _ (modify _) => apply preserves_modify; intros ? ?; tac
      | |- traceBlind _ => intros ? ? ?; tac
      end ].

(** ** The pool *)

Section invariants.
Context `{Host}.

Lemma poolBounded_delete w pillId :
  poolBounded w →
  poolBounded (set_pills (JsMap.delete pillId (pills (gameState w))) w).
Proof.
  unfold poolBounded. simpl. pose proof (jsmap_delete_length
    (pills (gameState w)) pillId). lia.
Qed.

Ltac pool_tac :=
  first [ by apply poolBounded_delete | by unfold poolBounded in *; simpl in * ].

Lemma scanPills_poolBounded now playerId playerX playerY player entries :
  preserves poolBounded
    (scanPills now playerId playerX playerY player entries).
Proof.
  induction entries as [|[pillId pill] rest IH]; simpl.
  - apply preserves_ret.
  - destruct (inReach _ _ _); [|done]. preserve IH pool_tac.
Qed.

Lemma generatePill_poolBounded now rnd r1 r2 :
  preserves poolBounded (generatePill now rnd r1 r2).
Proof.
  intros w a w' Hw. unfold generatePill, mbind, M_bind, gets.
  case_bool_decide as Hfull; [by intros [= _ <-]|].
  unfold modify, emit, modify. intros [= _ <-].
  unfold poolBounded in *. simpl.
  etrans; [apply jsmap_set_length|]. lia.
Qed.

Lemma step_poolBounded now e : preserves poolBounded (step now e).
Proof.
  destruct e; simpl;
    try (unfold initialSpawnTick, spawnTick;
         repeat first [ apply generatePill_poolBounded | preserve_step
                      | apply preserves_modify; intros ? ?; pool_tac ]; fail);
    preserve scanPills_poolBounded pool_tac.
Qed.

Lemma run_preserves (P : World → Prop) :
  (∀ now e, preserves P (step now e)) →
  ∀ events w w', P w → run events w = Some w' → P w'.
Proof.
  intros Hstep events. induction events as [|[now e] events IH]; simpl.
  - by intros w w' HP [= <-].
  - intros w w' HP. destruct (exec (step now e) w) as [w1|] eqn:E; [|done].
    apply IH. eapply preserves_exec; [apply Hstep | exact HP | exact E].
Qed.
End invariants.

Section pool_claims.
Context `{Host}.

Lemma poolAtMost_delete n w pillId :
  poolAtMost n w →
  poolAtMost n (set_pills (JsMap.delete pillId (pills (gameState w))) w).
Proof.
  unfold poolAtMost. simpl. pose proof (jsmap_delete_length
    (pills (gameState w)) pillId). lia.
Qed.

Ltac atMost_tac :=
  first [ by apply poolAtMost_delete | by unfold poolAtMost in *; simpl in * ].

Lemma scanPills_poolAtMost n now playerId playerX playerY player entries :
  preserves (poolAtMost n)
    (scanPills now playerId playerX playerY player entries).
Proof.
  induction entries as [|[pillId pill] rest IH]; simpl.
  - apply preserves_ret.
  - destruct (inReach _ _ _); [|done]. preserve IH atMost_tac.
Qed.

(** Only the two spawn timers can make the pool grow. *)
Lemma step_poolAtMost n now e :
  isSpawnTick e = false → preserves (poolAtMost n) (step now e).
Proof.
  destruct e; try done; intros _; simpl;
    preserve (scanPills_poolAtMost n) atMost_tac.
Qed.

Ltac wf_tac :=
  first
    [ by unfold poolWf in *; simpl in *
    | unfold poolWf in *; simpl;
      first [ by apply jsmap_wf_set | by apply jsmap_wf_delete ] ].

Lemma scanPills_poolWf now playerId playerX playerY player entries :
  preserves poolWf (scanPills now playerId playerX playerY player entries).
Proof.
  induction entries as [|[pillId pill] rest IH]; simpl.
  - apply preserves_ret.
  - destruct (inReach _ _ _); [|done]. preserve IH wf_tac.
Qed.

(** The pool stays a map: its keys stay pairwise distinct. *)
Lemma step_poolWf now e : preserves poolWf (step now e).
Proof.
  destruct e; simpl; try (unfold initialSpawnTick, spawnTick);
    preserve scanPills_poolWf wf_tac.
Qed.

Lemma initialWorld_invariants now :
  poolBounded (initialWorld now) ∧ poolWf (initialWorld now)
  ∧ allTimeInvariant (allTimeLeaderboard (initialWorld now)).
Proof.
  unfold poolBounded, poolWf, JsMap.wf, allTimeInvariant, descending,
    uniqueNames, MAX_PILLS. simpl.
  repeat split; first [lia | constructor].
Qed.

(** C4: the pool never holds more than 30 pills.  From a world within the
    bound, every run of the event loop ends within the bound; there a
    spawn attempt on a full pool changes nothing at all, and no event
    other than a spawn tick makes the pool larger. *)
Theorem pool_capacity (events : list (Z * event)) (w w' : World) :
  poolBounded w →
  run events w = Some w' →
  poolBounded w'
  ∧ (∀ now rnd r1 r2,
       JsMap.size (pills (gameState w')) = MAX_PILLS →
       generatePill now rnd r1 r2 w' = Ok tt w')
  ∧ (∀ now e w'',
       isSpawnTick e = false →
       exec (step now e) w' = Some w'' →
       JsMap.size (pills (gameState w'')) ≤ JsMap.size (pills (gameState w'))).
Proof.
  intros Hw Hrun. split; [|split].
  - eapply run_preserves; [apply step_poolBounded | exact Hw | exact Hrun].
  - intros now rnd r1 r2 Hfull. unfold generatePill, mbind, M_bind, gets.
    rewrite bool_decide_eq_true_2; [done | lia].
  - intros now e w'' He Hstep.
    eapply (preserves_exec (poolAtMost _)) in Hstep;
      [exact Hstep | by apply step_poolAtMost | unfold poolAtMost; lia].
Qed.
End pool_claims.

(** The pool after the two collectors' run is within the bound. *)
Lemma pool_capacity_witness :
  ∃ w', @run Utc.host Scenario.twoCollectors Scenario.boot = Some w'
        ∧ poolBounded w'.
Proof.
  eexists. split; [vm_compute; reflexivity|].
  refine (proj1 (@pool_capacity Utc.host Scenario.twoCollectors
                   Scenario.boot _ _ _)).
  - unfold poolBounded, MAX_PILLS. simpl. lia.
  - vm_compute. reflexivity.
Defined.

Section allTime_claims.
Context `{Host}.

Ltac board_tac :=
  first
    [ by unfold boardInvariant in *; simpl in *
    | unfold boardInvariant in *; simpl;
      match goal with
      | HP : allTimeInvariant _ |- _ =>
          apply rankAllTime_invariant; apply HP
      end ].

Lemma scanPills_boardInvariant now playerId playerX playerY player entries :
  preserves boardInvariant
    (scanPills now playerId playerX playerY player entries).
Proof.
  induction entries as [|[pillId pill] rest IH]; simpl.
  - apply preserves_ret.
  - destruct (inReach _ _ _); [|done]. preserve IH board_tac.
Qed.

Lemma step_boardInvariant now e : preserves boardInvariant (step now e).
Proof.
  destruct e; simpl;
    try (unfold initialSpawnTick, spawnTick);
    preserve scanPills_boardInvariant board_tac.
Qed.

(** C6, as the code has it: the all-time leaderboard holds at most three
    entries, is sorted from the highest score to the lowest with equal
    scores allowed next to each other, and names no player twice.  Every
    run of the event loop keeps this, and every score report made after it
    leaves a board of this kind. *)
Theorem allTime_invariant (events : list (Z * event)) (w w' : World) :
  allTimeInvariant (allTimeLeaderboard w) →
  run events w = Some w' →
  allTimeInvariant (allTimeLeaderboard w')
  ∧ (∀ now name score,
       ∃ w'', exec (updateAllTimeLeaderboard now name score) w' = Some w''
              ∧ allTimeInvariant (allTimeLeaderboard w'')).
Proof.
  intros Hw Hrun.
  assert (Hw' : allTimeInvariant (allTimeLeaderboard w')).
  { eapply (run_preserves boardInvariant);
      [apply step_boardInvariant | exact Hw | exact Hrun]. }
  split; [done|]. intros now name score. eexists. split.
  - unfold exec. by rewrite updateAllTimeLeaderboard_run.
  - simpl. apply rankAllTime_invariant, Hw'.
Qed.

(** C7: what a score report does to the all-time leaderboard.  A report
    always returns.  A name not yet on the board is pushed; a name on the
    board has its first entry replaced when the reported score is strictly
    greater, and otherwise the board is left as it was; in each case the
    result is sorted, highest first, and cut to three entries, written to
    the file and broadcast. *)
Theorem allTime_report (now : Z) (name : jsstring) (score : Z) (w : World) :
  let newEntry := AllTimeEntry.mk name score now (toLocaleDateString now) in
  let board := allTimeLeaderboard w in
  let top3 l := take 3 (sortDesc AllTimeEntry.score l) in
  ∃ w', exec (updateAllTimeLeaderboard now name score) w = Some w'
    ∧ (name ∉ AllTimeEntry.name <$> board →
       allTimeLeaderboard w' = top3 (board ++ [newEntry]))
    ∧ (∀ l1 e l2,
         board = l1 ++ e :: l2 →
         name ∉ AllTimeEntry.name <$> l1 →
         AllTimeEntry.name e = name →
         ((AllTimeEntry.score e < score)%Z →
          allTimeLeaderboard w' = top3 (l1 ++ newEntry :: l2))
         ∧ ((score ≤ AllTimeEntry.score e)%Z →
            allTimeLeaderboard w' = top3 board
            ∧ (allTimeInvariant board → allTimeLeaderboard w' = board)))
    ∧ descending AllTimeEntry.score (allTimeLeaderboard w')
    ∧ length (allTimeLeaderboard w') ≤ 3
    ∧ trace w' = trace w ++
        [WriteFile (AllTimeLeaderboardFile (allTimeLeaderboard w'));
         Emit ToAll (allTimeLeaderboardUpdate (allTimeLeaderboard w'))].
Proof.
  intros newEntry board top3. eexists. split.
  { unfold exec. by rewrite updateAllTimeLeaderboard_run. }
  subst newEntry board top3. simpl.
  split; [|split; [|split; [|split; [|done]]]].
  - intros Hn. unfold rankAllTime. simpl. by rewrite find_name_absent.
  - intros l1 e l2 Hb Hn He.
    assert (Hfind :
      list_find (λ entry, AllTimeEntry.name entry = name)
        (allTimeLeaderboard w) = Some (length l1, e)).
    { rewrite Hb, <- He. apply find_name_first. by rewrite He. }
    split.
    + intros Hlt. unfold rankAllTime. simpl. rewrite Hfind.
      rewrite (proj2 (Z.ltb_lt _ _) Hlt). by rewrite Hb, insert_at_length.
    + intros Hge.
      assert (Hsame :
        rankAllTime (AllTimeEntry.mk name score now (toLocaleDateString now))
          (allTimeLeaderboard w)
        = take 3 (sortDesc AllTimeEntry.score (allTimeLeaderboard w))).
      { unfold rankAllTime. simpl. rewrite Hfind.
        by rewrite (proj2 (Z.ltb_ge _ _) Hge). }
      split; [done|]. intros Hinv. rewrite Hsame.
      by apply take_sort_invariant_id.
  - apply rankAllTime_descending.
  - apply rankAllTime_length.
Qed.
End allTime_claims.

(** After the two collectors' run the board is a top three in the sense of
    [allTimeInvariant]. *)
Lemma allTime_invariant_witness :
  ∃ w', @run Utc.host Scenario.twoCollectors Scenario.boot = Some w'
        ∧ allTimeInvariant (allTimeLeaderboard w').
Proof.
  eexists. split; [vm_compute; reflexivity|].
  refine (proj1 (@allTime_invariant Utc.host Scenario.twoCollectors
                   Scenario.boot _ _ _)).
  - repeat split; simpl; [lia | constructor | constructor].
  - vm_compute. reflexivity.
Defined.

(** C6 as the specification words it asks for a strictly descending board.
    Alice and Bob each collect one pill: both are on the board with score
    1, next to each other. *)
Lemma allTime_tie_counterexample :
  ∃ w', @run Utc.host Scenario.twoCollectors Scenario.boot = Some w'
        ∧ AllTimeEntry.name <$> allTimeLeaderboard w' = [js "Alice"; js "Bob"]
        ∧ AllTimeEntry.score <$> allTimeLeaderboard w' = [1; 1]%Z
        ∧ ¬ strictlyDescending AllTimeEntry.score (allTimeLeaderboard w').
Proof.
  eexists. split; [vm_compute; reflexivity|].
  split; [vm_compute; reflexivity|]. split; [vm_compute; reflexivity|].
  unfold strictlyDescending. intros Hs.
  apply StronglySorted_inv in Hs as [_ Hall].
  apply Forall_cons in Hall as [Hlt _]. simpl in Hlt. lia.
Qed.

(** ** Session tokens: redemption, sweep and minting *)

Lemma alter_alter_insert (m : gmap jsstring Player.t) k p f g :
  m !! k = Some p → alter g k (alter f k m) = <[k := g (f p)]> m.
Proof.
  intros Hk. apply map_eq. intros j. destruct (decide (j = k)) as [->|].
  - by rewrite lookup_alter_eq, lookup_alter_eq, Hk, lookup_insert_eq.
  - by rewrite !lookup_alter_ne, lookup_insert_ne.
Qed.

Lemma trim_nonempty u :
  trim u ≠ [] → truthy u && bool_decide (0 < length (trim u)) = true.
Proof.
  intros Hu. destruct u as [|c u]; [done|]. simpl.
  apply bool_decide_eq_true_2. destruct (trim (c :: u)); [done | simpl; lia].
Qed.

Lemma trim_empty u :
  trim u = [] → truthy u && bool_decide (0 < length (trim u)) = false.
Proof. intros ->. simpl. apply andb_false_r. Qed.

Ltac run_handler :=
  unfold modifyPlayer, savePlayerScores, saveDailyLeaderboard, mbind, M_bind,
    modify, gets, mret, M_ret, writeFileSync, emit, modify; simpl.

Section setUsername_facts.
Context `{Host}.
Implicit Types (w : World) (u tok : jsstring) (td : Token.t).

Lemma onSetUsername_redeem now socketId u tok td w p :
  players (gameState w) !! socketId = Some p →
  trim u ≠ [] →
  tok ≠ [] →
  sessionTokens w !! tok = Some td →
  Token.name td = substring0 15 (trim u) →
  onSetUsername now socketId (UsernameObject (UsernameString u) (Some tok)) w
  = Ok tt (afterSetUsername w socketId p (substring0 15 (trim u))
             (Token.score td) (delete tok (sessionTokens w)) now).
Proof.
  intros Hp Hu Htok Htd Hname. unfold onSetUsername.
  unfold mbind at 1, M_bind at 1, gets at 1. rewrite Hp.
  unfold mbind at 1, M_bind at 1, mret at 1, M_ret at 1.
  rewrite trim_nonempty by done. run_handler.
  destruct tok as [|c tok]; [done|]. simpl. rewrite Htd.
  rewrite bool_decide_eq_true_2 by done. simpl.
  rewrite lookup_alter_eq, lookup_alter_eq, Hp. simpl.
  unfold afterSetUsername, set_trace, set_players. simpl.
  rewrite (alter_alter_insert _ _ p) by done.
  by rewrite <- app_assoc.
Qed.

Lemma onSetUsername_fresh now socketId u mtok w p :
  players (gameState w) !! socketId = Some p →
  trim u ≠ [] →
  (∀ tok td, mtok = Some tok → tok ≠ [] →
             sessionTokens w !! tok = Some td →
             Token.name td ≠ substring0 15 (trim u)) →
  onSetUsername now socketId (UsernameObject (UsernameString u) mtok) w
  = Ok tt (afterSetUsername w socketId p (substring0 15 (trim u)) 0
             (sessionTokens w) now).
Proof.
  intros Hp Hu Hno. unfold onSetUsername.
  unfold mbind at 1, M_bind at 1, gets at 1. rewrite Hp.
  unfold mbind at 1, M_bind at 1, mret at 1, M_ret at 1.
  rewrite trim_nonempty by done. run_handler.
  destruct mtok as [[|c tok]|]; simpl.
  - rewrite lookup_alter_eq, lookup_alter_eq, Hp. simpl.
    unfold afterSetUsername, set_trace, set_players. simpl.
    rewrite (alter_alter_insert _ _ p) by done. by rewrite <- app_assoc.
  - destruct (sessionTokens w !! (c :: tok)) as [td|] eqn:Htd; simpl.
    + rewrite bool_decide_eq_false_2 by (by eapply Hno). simpl.
      rewrite lookup_alter_eq, lookup_alter_eq, Hp. simpl.
      unfold afterSetUsername, set_trace, set_players. simpl.
      rewrite (alter_alter_insert _ _ p) by done. by rewrite <- app_assoc.
    + rewrite lookup_alter_eq, lookup_alter_eq, Hp. simpl.
      unfold afterSetUsername, set_trace, set_players. simpl.
      rewrite (alter_alter_insert _ _ p) by done. by rewrite <- app_assoc.
  - rewrite lookup_alter_eq, lookup_alter_eq, Hp. simpl.
    unfold afterSetUsername, set_trace, set_players. simpl.
    rewrite (alter_alter_insert _ _ p) by done. by rewrite <- app_assoc.
Qed.

(** A name that is empty once trimmed: nothing happens. *)
Lemma onSetUsername_blank now socketId u mtok w :
  trim u = [] →
  onSetUsername now socketId (UsernameObject (UsernameString u) mtok) w
  = Ok tt w.
Proof.
  intros Hu. unfold onSetUsername.
  unfold mbind at 1, M_bind at 1, gets at 1.
  unfold mbind at 1, M_bind at 1, mret at 1, M_ret at 1.
  destruct (players (gameState w) !! socketId); [|done].
  by rewrite trim_empty.
Qed.

Lemma onSetUsername_bare now socketId u w :
  onSetUsername now socketId (BareString u) w
  = onSetUsername now socketId (UsernameObject (UsernameString u) None) w.
Proof. done. Qed.
End setUsername_facts.

Section token_facts.
Context `{Host}.

(** The sweep loop, on any list of entries. *)
Lemma sweep_lookup (now : Z) (entries : list (jsstring * Token.t))
    (m : gmap jsstring Token.t) (k : jsstring) :
  foldr (λ '(token, data) m,
           if (TWENTY_FOUR_HOURS <? now - Token.created data)%Z
           then delete token m else m) m entries !! k
  = if bool_decide (Exists (λ e, e.1 = k ∧ expired now e.2 = true) entries)
    then None else m !! k.
Proof.
  induction entries as [|[token data] entries IH]; simpl.
  - done.
  - fold (expired now data). destruct (expired now data) eqn:Hexp.
    + destruct (decide (token = k)) as [->|Hne].
      * rewrite lookup_delete_eq, bool_decide_eq_true_2; [done|].
        by apply Exists_cons_hd.
      * rewrite lookup_delete_ne, IH by done.
        erewrite (bool_decide_ext (Exists _ (_ :: _))); [done|].
        rewrite Exists_cons. simpl.
        split; [|auto]. intros [[? _]|?]; [congruence | done].
    + rewrite IH. erewrite (bool_decide_ext (Exists _ (_ :: _))); [done|].
      rewrite Exists_cons. simpl.
      split; [|auto]. intros [[_ ?]|?]; [congruence | done].
Qed.

(** The sweep deletes exactly the tokens older than twenty-four hours. *)
Lemma cleanupExpiredTokens_run now w :
  ∃ w', cleanupExpiredTokens now w = Ok tt w'
    ∧ (∀ tok, sessionTokens w' !! tok =
         match sessionTokens w !! tok with
         | Some td => if expired now td then None else Some td
         | None => None
         end)
    ∧ gameState w' = gameState w ∧ trace w' = trace w.
Proof.
  eexists. split; [reflexivity|]. simpl. split; [|done]. intros tok.
  rewrite sweep_lookup.
  destruct (sessionTokens w !! tok) as [td|] eqn:Htd.
  - destruct (expired now td) eqn:Hexp.
    + rewrite bool_decide_eq_true_2; [done|]. apply Exists_exists.
      exists (tok, td). split; [by apply elem_of_map_to_list | done].
    + rewrite bool_decide_eq_false_2; [done|].
      intros [[k td'] [Hin [Hk Hexp']]]%Exists_exists. simpl in *. subst k.
      apply elem_of_map_to_list in Hin. congruence.
  - rewrite bool_decide_eq_false_2; [done|].
    intros [[k td'] [Hin [Hk _]]]%Exists_exists. simpl in *. subst k.
    apply elem_of_map_to_list in Hin. congruence.
Qed.

(** A disconnecting player with a name and a positive score is given a
    token for them. *)
Lemma onDisconnect_mint now socketId rnd w p :
  players (gameState w) !! socketId = Some p →
  Player.name p ≠ [] →
  (0 < Player.score p)%Z →
  let tok := generateSessionToken now rnd in
  ∃ w', onDisconnect now socketId rnd w = Ok tt w'
    ∧ sessionTokens w' =
        <[tok := Token.mk (Player.name p) (Player.score p) now]>
          (sessionTokens w)
    ∧ players (gameState w') = delete socketId (players (gameState w))
    ∧ Emit (ToSocket socketId)
        (sessionTokenMsg tok (Player.name p) (Player.score p)) ∈ trace w'.
Proof.
  intros Hp Hname Hscore tok. unfold onDisconnect.
  unfold mbind at 1, M_bind at 1, gets at 1. rewrite Hp.
  assert (Hc : truthy (Player.name p) && (0 <? Player.score p)%Z = true).
  { destruct (Player.name p); [done|]. simpl. by apply Z.ltb_lt. }
  rewrite Hc. unfold updateDailyLeaderboard. run_handler.
  eexists. split; [reflexivity|]. simpl. split; [done|]. split; [done|].
  rewrite !elem_of_app. left. left. right. apply list_elem_of_singleton. done.
Qed.
End token_facts.

Section token_claims.
Context `{Host}.
Implicit Types (w : World) (u tok : jsstring) (td : Token.t).

Lemma scoreOf_afterSetUsername w socketId p clean score tokens now :
  scoreOf socketId (afterSetUsername w socketId p clean score tokens now)
  = Some score.
Proof. unfold scoreOf. simpl. by rewrite lookup_insert_eq. Qed.

(** C1, as the code has it: a [setUsername] with a usable name redeems the
    presented token exactly when the token is a non-empty string, is a key
    of the store, and its bound name equals the sanitized username; then
    the bound score is applied and the token deleted, and in every other
    case the score is 0 and the store is untouched.  The handler does not
    look at the age of the token.  Age is the business of the sweep, which
    deletes the tokens older than twenty-four hours and keeps the others;
    once the sweep has run, presenting such a token gives score 0. *)
Theorem token_redemption (now : Z) (socketId u : jsstring)
    (sessionToken : option jsstring) (w : World) (p : Player.t) :
  players (gameState w) !! socketId = Some p →
  trim u ≠ [] →
  let cleanUsername := substring0 15 (trim u) in
  let data := UsernameObject (UsernameString u) sessionToken in
  (∃ w', exec (onSetUsername now socketId data) w = Some w'
     ∧ ((∃ tok td,
           sessionToken = Some tok ∧ tok ≠ []
           ∧ sessionTokens w !! tok = Some td
           ∧ Token.name td = cleanUsername
           ∧ scoreOf socketId w' = Some (Token.score td)
           ∧ sessionTokens w' = delete tok (sessionTokens w))
        ∨ ((∀ tok td,
              sessionToken = Some tok → tok ≠ [] →
              sessionTokens w !! tok = Some td →
              Token.name td ≠ cleanUsername)
           ∧ scoreOf socketId w' = Some 0%Z
           ∧ sessionTokens w' = sessionTokens w)))
  ∧ (∀ sweepTime,
       ∃ ws, exec (cleanupExpiredTokens sweepTime) w = Some ws
         ∧ (∀ tok td,
              sessionTokens w !! tok = Some td →
              sessionTokens ws !! tok =
                if (TWENTY_FOUR_HOURS <? sweepTime - Token.created td)%Z
                then None else Some td)
         ∧ (∀ tok td,
              sessionToken = Some tok →
              sessionTokens w !! tok = Some td →
              (TWENTY_FOUR_HOURS < sweepTime - Token.created td)%Z →
              ∃ ws', exec (onSetUsername now socketId data) ws = Some ws'
                     ∧ scoreOf socketId ws' = Some 0%Z)).
Proof.
  intros Hp Hu cleanUsername data. split.
  - assert (Hcases :
      (∃ tok td, sessionToken = Some tok ∧ tok ≠ []
                 ∧ sessionTokens w !! tok = Some td
                 ∧ Token.name td = cleanUsername)
      ∨ (∀ tok td, sessionToken = Some tok → tok ≠ [] →
                   sessionTokens w !! tok = Some td →
                   Token.name td ≠ cleanUsername)).
    { destruct sessionToken as [tok|]; [|by right].
      destruct (decide (tok = [])) as [->|Htok]; [by right; intros ?? [= <-]|].
      destruct (sessionTokens w !! tok) as [td|] eqn:Htd;
        [|by right; intros ?? [= <-]; rewrite Htd].
      destruct (decide (Token.name td = cleanUsername)) as [Hn|Hn].
      - left. by exists tok, td.
      - right. intros ?? [= <-] _. rewrite Htd. by intros [= <-]. }
    destruct Hcases as [(tok & td & -> & Htok & Htd & Hn)|Hno].
    + eexists. split.
      { unfold exec, data. by rewrite (onSetUsername_redeem _ _ _ _ td _ p). }
      left. exists tok, td. repeat split; try done.
      apply scoreOf_afterSetUsername.
    + eexists. split.
      { unfold exec, data. by rewrite (onSetUsername_fresh _ _ _ _ _ p). }
      right. repeat split; try done. apply scoreOf_afterSetUsername.
  - intros sweepTime.
    destruct (cleanupExpiredTokens_run sweepTime w)
      as (ws & Hrun & Hlook & Hgame & _).
    exists ws. split; [unfold exec; by rewrite Hrun|]. split.
    + intros tok td Htd. by rewrite Hlook, Htd.
    + intros tok td -> Htd Hold. eexists. split.
      { unfold exec, data. rewrite (onSetUsername_fresh _ _ _ _ _ p); try done.
        - by rewrite Hgame.
        - intros tok' td' [= <-] _. rewrite Hlook, Htd.
          unfold expired. by rewrite (proj2 (Z.ltb_lt _ _) Hold). }
      apply scoreOf_afterSetUsername.
Qed.


(** C10: a token presented under another name stays where it is.  The
    handler leaves the token store, the pool and both leaderboards as they
    were; of the player it changes the name and sets the score to 0; the
    other players are untouched.  The same token is then still good for a
    [setUsername] whose username sanitizes to its bound name. *)
Theorem token_mismatch_keeps_token (now : Z) (socketId u tok : jsstring)
    (td : Token.t) (w : World) (p : Player.t) :
  players (gameState w) !! socketId = Some p →
  trim u ≠ [] →
  tok ≠ [] →
  sessionTokens w !! tok = Some td →
  Token.name td ≠ substring0 15 (trim u) →
  ∃ w',
    exec (onSetUsername now socketId
            (UsernameObject (UsernameString u) (Some tok))) w = Some w'
    ∧ sessionTokens w' = sessionTokens w
    ∧ players (gameState w') =
        <[socketId := Player.set_score 0
                        (Player.set_name (substring0 15 (trim u)) p)]>
          (players (gameState w))
    ∧ pills (gameState w') = pills (gameState w)
    ∧ dailyLeaderboard w' = dailyLeaderboard w
    ∧ allTimeLeaderboard w' = allTimeLeaderboard w
    ∧ ∀ now2 socketId2 p2 u2,
        players (gameState w') !! socketId2 = Some p2 →
        trim u2 ≠ [] →
        substring0 15 (trim u2) = Token.name td →
        ∃ w'',
          exec (onSetUsername now2 socketId2
                  (UsernameObject (UsernameString u2) (Some tok))) w'
            = Some w''
          ∧ scoreOf socketId2 w'' = Some (Token.score td)
          ∧ sessionTokens w'' !! tok = None.
Proof.
  intros Hp Hu Htok Htd Hne. eexists. split.
  { unfold exec. rewrite (onSetUsername_fresh _ _ _ _ _ p); try done.
    intros tok' td' [= <-] _. rewrite Htd. by intros [= <-]. }
  repeat (split; [done|]).
  intros now2 socketId2 p2 u2 Hp2 Hu2 Hmatch. eexists. split.
  { unfold exec. by rewrite (onSetUsername_redeem _ _ _ _ td _ p2). }
  split; [apply scoreOf_afterSetUsername|]. simpl. apply lookup_delete_eq.
Qed.
End token_claims.

(** C1 as the specification words it denies a token older than a day.
    Here the token is twenty-four hours and five minutes old, the sweep of
    the twenty-fourth hour has run and kept it, and [setUsername] restores
    its score and deletes it. *)
Lemma late_redemption_counterexample :
  ∃ w w',
    @run Utc.host Reconnect.dayRun Scenario.boot = Some w
    ∧ sessionTokens w !! Reconnect.aliceToken
        = Some (Token.mk (js "Alice") 1 1800000)
    ∧ (TWENTY_FOUR_HOURS < 88500000 - 1800000)%Z
    ∧ exec (onSetUsername 88500000 Scenario.socketB
              (Reconnect.presentAs "Alice")) w = Some w'
    ∧ scoreOf Scenario.socketB w' = Some 1%Z
    ∧ sessionTokens w' !! Reconnect.aliceToken = None.
Proof.
  eexists. eexists. split; [vm_compute; reflexivity|].
  split; [vm_compute; reflexivity|]. split; [done|].
  split; [vm_compute; reflexivity|].
  split; vm_compute; reflexivity.
Qed.

Lemma token_redemption_witness :
  players (gameState Reconnect.afterDay) !! Scenario.socketB
    = Some Reconnect.newcomer
  ∧ ∃ w', exec (onSetUsername 88500000 Scenario.socketB
                  (Reconnect.presentAs "Alice")) Reconnect.afterDay = Some w'.
Proof.
  assert (Hp : players (gameState Reconnect.afterDay) !! Scenario.socketB
               = Some Reconnect.newcomer) by (vm_compute; reflexivity).
  split; [exact Hp|].
  assert (Hu : trim (js "Alice") ≠ []) by (vm_compute; discriminate).
  pose proof (proj1 (token_redemption 88500000 Scenario.socketB
              (js "Alice") (Some Reconnect.aliceToken) Reconnect.afterDay
              Reconnect.newcomer Hp Hu)) as Hthm.
  destruct Hthm as (w' & Hexec & _).
  exists w'. exact Hexec.
Defined.


Lemma token_mismatch_witness :
  ∃ w', exec (onSetUsername 88500000 Scenario.socketB
                (Reconnect.presentAs "Bob")) Reconnect.afterDay = Some w'
        ∧ sessionTokens w' = sessionTokens Reconnect.afterDay.
Proof.
  assert (Hp : players (gameState Reconnect.afterDay) !! Scenario.socketB
               = Some Reconnect.newcomer) by (vm_compute; reflexivity).
  assert (Hu : trim (js "Bob") ≠ []) by (vm_compute; discriminate).
  assert (Htok : Reconnect.aliceToken ≠ []) by (vm_compute; discriminate).
  assert (Htd : sessionTokens Reconnect.afterDay !! Reconnect.aliceToken
                = Some (Token.mk (js "Alice") 1 1800000))
    by (vm_compute; reflexivity).
  assert (Hne : Token.name (Token.mk (js "Alice") 1 1800000)
                ≠ substring0 15 (trim (js "Bob")))
    by (vm_compute; discriminate).
  pose proof (token_mismatch_keeps_token 88500000 Scenario.socketB
              (js "Bob") Reconnect.aliceToken
              (Token.mk (js "Alice") 1 1800000) Reconnect.afterDay
              Reconnect.newcomer Hp Hu Htok Htd Hne) as Hthm.
  destruct Hthm as (w' & Hexec & Htokens & _).
  exists w'. split; [exact Hexec | exact Htokens].
Defined.

(** ** Moves: what the handler does *)

Lemma alter_to_insert (m : gmap jsstring Player.t) k p f :
  m !! k = Some p → alter f k m = <[k := f p]> m.
Proof.
  intros Hk. apply map_eq. intros j. destruct (decide (j = k)) as [->|].
  - by rewrite lookup_alter_eq, Hk, lookup_insert_eq.
  - by rewrite lookup_alter_ne, lookup_insert_ne.
Qed.

Lemma alter_insert_same (m : gmap jsstring Player.t) k p f :
  alter f k (<[k := p]> m) = <[k := f p]> m.
Proof.
  rewrite (alter_to_insert _ _ p) by apply lookup_insert_eq.
  apply insert_insert_eq.
Qed.

Section move_facts.
Context `{Host}.
Implicit Types (w : World) (p : Player.t) (d : MoveData).

Lemma onMove_absent now socketId data w :
  players (gameState w) !! socketId = None →
  onMove now socketId data w = Ok tt w.
Proof.
  intros Hp. unfold onMove, mbind, M_bind, gets. by rewrite Hp.
Qed.

Lemma onMove_dead now socketId data w p :
  players (gameState w) !! socketId = Some p →
  (Player.health p ≤ 0)%Z →
  onMove now socketId data w = Ok tt w.
Proof.
  intros Hp Hh. unfold onMove, mbind, M_bind, gets. rewrite Hp.
  by rewrite (proj2 (Z.ltb_ge _ _) Hh).
Qed.

Lemma onMove_throttled now socketId data w p :
  players (gameState w) !! socketId = Some p →
  (now - default 0 (Player.lastMovementUpdate p) < 16)%Z →
  onMove now socketId data w = Ok tt w.
Proof.
  intros Hp Ht. unfold onMove, mbind, M_bind, gets. rewrite Hp.
  destruct (0 <? Player.health p)%Z; [|done].
  by rewrite (proj2 (Z.leb_gt _ _) Ht).
Qed.

Lemma onMove_nullish now socketId w p :
  players (gameState w) !! socketId = Some p →
  (0 < Player.health p)%Z →
  (16 ≤ now - default 0 (Player.lastMovementUpdate p))%Z →
  onMove now socketId None w = Throw.
Proof.
  intros Hp Hh Ht. unfold onMove, mbind, M_bind, gets. rewrite Hp.
  by rewrite (proj2 (Z.ltb_lt _ _) Hh), (proj2 (Z.leb_le _ _) Ht).
Qed.

(** An accepted move overwrites the player, then scans the pool, then
    tells the others. *)
Lemma onMove_accepted now socketId d w p :
  players (gameState w) !! socketId = Some p →
  (0 < Player.health p)%Z →
  (16 ≤ now - default 0 (Player.lastMovementUpdate p))%Z →
  onMove now socketId (Some d) w =
    (scanPills now socketId (md_x d) (md_y d) (movedPlayer p d now)
       (pills (gameState w)) ≫= λ _, announceMove socketId)
      (set_players (<[socketId := movedPlayer p d now]> (players (gameState w)))
         w).
Proof.
  intros Hp Hh Ht. unfold onMove.
  unfold mbind at 1, M_bind at 1, gets at 1. rewrite Hp.
  rewrite (proj2 (Z.ltb_lt _ _) Hh), (proj2 (Z.leb_le _ _) Ht).
  unfold checkPillCollection.
  destruct d as [x y [dir|] [wa|]]; simpl;
    unfold modifyPlayer, mbind, M_bind, modify, mret, M_ret, gets; simpl;
    rewrite !lookup_alter_eq, Hp; simpl;
    unfold set_players; simpl;
    rewrite (alter_to_insert (players (gameState w)) _ p) by done;
    rewrite !alter_insert_same; reflexivity.
Qed.

Lemma scanPills_none now socketId playerX playerY player entries w :
  Forall (outOfReach playerX playerY) entries →
  scanPills now socketId playerX playerY player entries w = Ok tt w.
Proof.
  induction 1 as [|[pillId pill] rest Hout _ IH]; simpl; [done|].
  unfold outOfReach in Hout. simpl in Hout. by rewrite Hout.
Qed.

Lemma scanPills_first now socketId playerX playerY player l1 pillId pill l2 :
  Forall (outOfReach playerX playerY) l1 →
  inReach playerX playerY pill = true →
  scanPills now socketId playerX playerY player (l1 ++ (pillId, pill) :: l2)
  = collectPill now socketId pillId pill player.
Proof.
  intros Hl1 Hin. induction Hl1 as [|[k v] rest Hout _ IH]; simpl.
  - by rewrite Hin.
  - unfold outOfReach in Hout. simpl in Hout. by rewrite Hout.
Qed.

(** The scan either passes every pill or stops at a first one. *)
Lemma first_in_reach playerX playerY (entries : jsmap Pill.t) :
  Forall (outOfReach playerX playerY) entries
  ∨ ∃ l1 pillId pill l2,
      entries = l1 ++ (pillId, pill) :: l2
      ∧ Forall (outOfReach playerX playerY) l1
      ∧ inReach playerX playerY pill = true.
Proof.
  induction entries as [|[k v] rest IH]; [by left|].
  destruct (inReach playerX playerY v) eqn:Hv.
  - right. by exists [], k, v, rest.
  - destruct IH as [Hall|(l1 & pillId & pill & l2 & -> & Hl1 & Hin)].
    + left. by constructor.
    + right. exists ((k, v) :: l1), pillId, pill, l2.
      split; [done|]. split; [by constructor | done].
Qed.

(** A move that reaches no pill only moves the player and tells the
    others. *)
Lemma onMove_miss now socketId d w p :
  players (gameState w) !! socketId = Some p →
  (0 < Player.health p)%Z →
  (16 ≤ now - default 0 (Player.lastMovementUpdate p))%Z →
  Forall (outOfReach (md_x d) (md_y d)) (pills (gameState w)) →
  onMove now socketId (Some d) w =
    Ok tt
      (set_trace
         (trace w ++
            [Emit (ToOthers socketId) (playerUpdate
               (playerUpdateOf (movedPlayer p d now)
                  (Player.weaponAngle (movedPlayer p d now))
                  (Some (Player.score p))))])
         (set_players
            (<[socketId := movedPlayer p d now]> (players (gameState w))) w)).
Proof.
  intros Hp Hh Ht Hnone. rewrite (onMove_accepted _ _ _ _ p) by done.
  unfold mbind, M_bind. rewrite scanPills_none by done.
  unfold announceMove. run_handler. by rewrite lookup_insert_eq.
Qed.

(** A move that reaches a pill collects the first such pill of the pool,
    and that one only. *)
Lemma onMove_hit now socketId d w p l1 pillId pill l2 :
  players (gameState w) !! socketId = Some p →
  (0 < Player.health p)%Z →
  (16 ≤ now - default 0 (Player.lastMovementUpdate p))%Z →
  pills (gameState w) = l1 ++ (pillId, pill) :: l2 →
  Forall (outOfReach (md_x d) (md_y d)) l1 →
  inReach (md_x d) (md_y d) pill = true →
  let newScore := (Player.score p + Pill.points pill)%Z in
  ∃ w' added,
    onMove now socketId (Some d) w = Ok tt w'
    ∧ pills (gameState w') = JsMap.delete pillId (pills (gameState w))
    ∧ players (gameState w') =
        <[socketId := Player.set_score newScore (movedPlayer p d now)]>
          (players (gameState w))
    ∧ trace w' = trace w ++ added
    ∧ filter isPillCollected added =
        [Emit ToAll (pillCollected pillId socketId (Pill.points pill) newScore)]
    ∧ last added = Some (Emit (ToOthers socketId) (playerUpdate
        (playerUpdateOf (Player.set_score newScore (movedPlayer p d now))
           (Player.weaponAngle (movedPlayer p d now)) (Some newScore)))).
Proof.
  intros Hp Hh Ht Hpills Hl1 Hin newScore.
  rewrite (onMove_accepted _ _ _ _ p) by done.
  unfold mbind, M_bind. rewrite Hpills, scanPills_first by done.
  unfold collectPill, updateDailyLeaderboard, updateAllTimeLeaderboard,
    saveAllTimeLeaderboard, announceMove.
  run_handler. rewrite alter_insert_same, lookup_insert_eq. simpl.
  eexists. eexists. split; [reflexivity|]. simpl.
  split; [by rewrite Hpills|]. split; [done|]. split.
  { rewrite <- !app_assoc. reflexivity. }
  split; reflexivity.
Qed.
End move_facts.

(** ** Missing coordinates

    [undefined] converts to [NaN], and [NaN] spreads through the distance
    computation down to the comparison, which it fails. *)
Section nan_facts.
Implicit Types (f g : float).









End nan_facts.

Section move_claims.
Context `{Host}.

(** C5: an accepted move collects at most one pill.  Either no pill of the
    pool is within reach, and pool and score stay as they are; or the pool
    splits around the first pill within reach, in iteration order: that
    pill alone leaves the pool, whatever lies behind it, the score grows by
    its points, and one [pillCollected] is broadcast. *)
Theorem one_pill_per_move (now : Z) (socketId : jsstring) (d : MoveData)
    (w : World) (p : Player.t) :
  players (gameState w) !! socketId = Some p →
  (0 < Player.health p)%Z →
  (16 ≤ now - default 0 (Player.lastMovementUpdate p))%Z →
  JsMap.wf (pills (gameState w)) →
  ∃ w',
    exec (onMove now socketId (Some d)) w = Some w'
    ∧ ((Forall (outOfReach (md_x d) (md_y d)) (pills (gameState w))
        ∧ pills (gameState w') = pills (gameState w)
        ∧ scoreOf socketId w' = Some (Player.score p))
       ∨ (∃ l1 pillId pill l2 added,
            pills (gameState w) = l1 ++ (pillId, pill) :: l2
            ∧ Forall (outOfReach (md_x d) (md_y d)) l1
            ∧ inReach (md_x d) (md_y d) pill = true
            ∧ pills (gameState w') = l1 ++ l2
            ∧ scoreOf socketId w'
                = Some (Player.score p + Pill.points pill)%Z
            ∧ trace w' = trace w ++ added
            ∧ filter isPillCollected added =
                [Emit ToAll (pillCollected pillId socketId (Pill.points pill)
                               (Player.score p + Pill.points pill))])).
Proof.
  intros Hp Hh Ht Hwf.
  destruct (first_in_reach (md_x d) (md_y d) (pills (gameState w)))
    as [Hnone|(l1 & pillId & pill & l2 & Hpills & Hl1 & Hin)].
  - eexists. split.
    { unfold exec. by rewrite (onMove_miss _ _ _ _ p). }
    left. split; [done|]. split; [done|].
    unfold scoreOf. simpl. by rewrite lookup_insert_eq.
  - destruct (onMove_hit now socketId d w p l1 pillId pill l2)
      as (w' & added & Hrun & Hpool & Hplayers & Htrace & Hone & _);
      try done.
    exists w'. split; [unfold exec; by rewrite Hrun|].
    right. exists l1, pillId, pill, l2, added. repeat (split; [done|]).
    split; [|split; [|done]].
    + rewrite Hpool, Hpills. apply jsmap_delete_middle.
      unfold JsMap.wf, JsMap.keys in Hwf. rewrite Hpills, fmap_app in Hwf.
      apply NoDup_app in Hwf as (_ & Hdisj & _). intros Hk.
      apply (Hdisj _ Hk). simpl. apply list_elem_of_here.
    + unfold scoreOf. rewrite Hplayers. by rewrite lookup_insert_eq.
Qed.

End move_claims.

(** Alice walks onto the point where both pills lie: one pill is left in
    the pool and her score is 1. *)
Lemma one_pill_per_move_witness :
  pills (gameState Overlap.start) = Overlap.pool
  ∧ ∃ w', exec (@onMove Utc.host 1003000 Scenario.socketA
                  (Scenario.moveTo 2400 1600)) Overlap.start = Some w'
          ∧ JsMap.size (pills (gameState w')) = 1
          ∧ scoreOf Scenario.socketA w' = Some 1%Z.
Proof.
  assert (Hpool : pills (gameState Overlap.start) = Overlap.pool)
    by (vm_compute; reflexivity).
  assert (Hp : players (gameState Overlap.start) !! Scenario.socketA
               = Some Overlap.alice) by (vm_compute; reflexivity).
  assert (Hh : (0 < Player.health Overlap.alice)%Z) by reflexivity.
  assert (Ht : (16 ≤ 1003000
                - default 0 (Player.lastMovementUpdate Overlap.alice))%Z)
    by (vm_compute; discriminate).
  assert (Hwf : JsMap.wf (pills (gameState Overlap.start))).
  { rewrite Hpool. unfold JsMap.wf. apply (bool_decide_unpack _).
    vm_compute. exact I. }
  split; [exact Hpool|].
  pose proof (@one_pill_per_move Utc.host 1003000 Scenario.socketA
    {| md_x := Some 2400%float; md_y := Some 1600%float;
       md_direction := None; md_weaponAngle := None |}
    Overlap.start Overlap.alice Hp Hh Ht Hwf) as Hthm.
  destruct Hthm as (w' & Hexec & Hcases). exists w'. split; [exact Hexec|].
  rewrite Hpool in Hcases.
  destruct Hcases as [(Hnone & _)
    | (l1 & pillId & pill & l2 & added & Hsplit & _ & _ & Hleft & Hscore & _)].
  - apply Forall_cons in Hnone as [Hout _]. vm_compute in Hout. discriminate.
  - assert (Hpoints : Forall (λ e, Pill.points e.2 = 1%Z) Overlap.pool)
      by (repeat constructor).
    rewrite Hsplit in Hpoints.
    apply Forall_app in Hpoints as [_ [Hone _]%Forall_cons]. simpl in Hone.
    rewrite Hone in Hscore. split; [|exact Hscore].
    rewrite Hleft. apply (f_equal length) in Hsplit.
    unfold JsMap.size. rewrite length_app in *. simpl in Hsplit. lia.
Defined.



(** ** The daily reset *)

Section reset_claims.
Context `{Host}.

(** C8: the tick that finds the reset time reached.  It empties the daily
    board, sets [currentDay] to the date of the tick and the reset target
    to the next midnight, writes the emptied board to its file and
    broadcasts [dailyLeaderboardReset] with the new day.  The remaining
    time it sends there, and in the [timeUpdate] after it, is the one
    computed before the target moved, which is 0, not the time to the new
    target: [timeRemaining] is not computed again in this tick. *)
Theorem daily_reset_sends_stale_remaining (now : Z) (w : World) :
  (default 0 (resetTime (dailyLeaderboard w)) ≤ now)%Z →
  ∃ w',
    exec (countdownTick now) w = Some w'
    ∧ topScores (dailyLeaderboard w') = []
    ∧ currentDay (dailyLeaderboard w') = toDateString now
    ∧ resetTime (dailyLeaderboard w') = Some (nextMidnight now)
    ∧ timeRemaining (dailyLeaderboard w') = 0%Z
    ∧ trace w' = trace w ++
        [WriteFile (DailyLeaderboardFile (toDateString now) []
                      (Some (nextMidnight now)));
         Emit ToAll (dailyLeaderboardReset (toDateString now) 0);
         Emit ToAll (timeUpdate 0)].
Proof.
  intros Hdue. unfold exec, countdownTick, updateTimeRemaining. run_handler.
  rewrite Z.max_l by lia. simpl.
  unfold resetDailyLeaderboard. run_handler.
  eexists. split; [reflexivity|]. simpl. repeat (split; [done|]).
  by rewrite <- !app_assoc.
Qed.
End reset_claims.

(** On the UTC host, started at the epoch: the tick at the first midnight
    announces the new day, Friday 2 January 1970, with 0 ms remaining,
    while the next reset is a full day away. *)
Lemma daily_reset_witness :
  ∃ w',
    exec (@countdownTick Utc.host 86400000) Scenario.boot = Some w'
    ∧ trace w' =
        [WriteFile (DailyLeaderboardFile (js "Fri Jan 02 1970") []
                      (Some 172800000%Z));
         Emit ToAll (dailyLeaderboardReset (js "Fri Jan 02 1970") 0);
         Emit ToAll (timeUpdate 0)]
    ∧ (@nextMidnight Utc.host 86400000 - 86400000 = 86400000)%Z.
Proof.
  assert (Hdue : (default 0 (resetTime (dailyLeaderboard Scenario.boot))
                  ≤ 86400000)%Z) by (vm_compute; discriminate).
  pose proof (@daily_reset_sends_stale_remaining Utc.host 86400000
                Scenario.boot Hdue) as Hthm.
  destruct Hthm as (w' & Hexec & _ & _ & _ & _ & Htrace).
  exists w'. split; [exact Hexec|]. split; [|reflexivity].
  rewrite Htrace. vm_compute. reflexivity.
Defined.

(** ** The rate limit on moves *)

Section rate_limit.
Context `{Host}.

Lemma view_alter (f : Player.t → Player.t) (k socketId : jsstring)
    (m : gmap jsstring Player.t) :
  (∀ p, Player.lastMovementUpdate (f p) = Player.lastMovementUpdate p) →
  Player.lastMovementUpdate <$> alter f k m !! socketId
  = Player.lastMovementUpdate <$> m !! socketId.
Proof.
  intros Hf. rewrite lookup_alter. case_decide; [subst|done].
  destruct (m !! socketId); simpl; [by rewrite Hf | done].
Qed.

Lemma view_alter_ne (f : Player.t → Player.t) (k socketId : jsstring)
    (m : gmap jsstring Player.t) :
  k ≠ socketId →
  Player.lastMovementUpdate <$> alter f k m !! socketId
  = Player.lastMovementUpdate <$> m !! socketId.
Proof. intros Hne. by rewrite lookup_alter_ne. Qed.

Ltac view_tac :=
  unfold viewKept, lastMoveOf in *; simpl in *;
  first
    [ done
    | rewrite view_alter by done; done
    | rewrite view_alter_ne by done; done
    | rewrite lookup_insert_ne by done; done
    | rewrite lookup_delete; case_decide; [by right | done] ].

Lemma scanPills_viewKept v socketId now playerId playerX playerY player
    entries :
  preserves (viewKept v socketId)
    (scanPills now playerId playerX playerY player entries).
Proof.
  induction entries as [|[pillId pill] rest IH]; simpl.
  - apply preserves_ret.
  - destruct (inReach _ _ _); [|done]. preserve IH view_tac.
Qed.

(** Only a move of the connection, or a new connection under its id, can
    change the stamp. *)
Lemma step_viewKept v socketId now e :
  isConnectionOf socketId e = false →
  isMoveOf socketId e = false →
  preserves (viewKept v socketId) (step now e).
Proof.
  intros Hc Hm. destruct e; simpl in Hc, Hm;
    try apply bool_decide_eq_false in Hc;
    try apply bool_decide_eq_false in Hm; simpl;
    try (unfold initialSpawnTick, spawnTick);
    preserve (scanPills_viewKept v socketId) view_tac.
Qed.

(** What a [move] can do: nothing, or all of it. *)
Lemma onMove_outcome now socketId data w w' :
  exec (onMove now socketId data) w = Some w' →
  w' = w
  ∨ ∃ p, players (gameState w) !! socketId = Some p
      ∧ (16 ≤ now - default 0 (Player.lastMovementUpdate p))%Z
      ∧ lastMoveOf socketId w' = Some (Some now)
      ∧ length (trace w) < length (trace w').
Proof.
  unfold exec. destruct (players (gameState w) !! socketId) as [p|] eqn:Hp;
    [|rewrite onMove_absent by done; intros [= <-]; by left].
  destruct (decide (0 < Player.health p)%Z) as [Hh|Hh];
    [|rewrite (onMove_dead _ _ _ _ p) by (done || lia);
      intros [= <-]; by left].
  destruct (decide (16 ≤ now - default 0 (Player.lastMovementUpdate p))%Z)
    as [Ht|Ht];
    [|rewrite (onMove_throttled _ _ _ _ p) by (done || lia);
      intros [= <-]; by left].
  destruct data as [d|]; [|by rewrite (onMove_nullish _ _ _ p)].
  intros Hrun. right. exists p. split; [done|]. split; [done|].
  destruct (first_in_reach (md_x d) (md_y d) (pills (gameState w)))
    as [Hnone|(l1 & pillId & pill & l2 & Hpills & Hl1 & Hin)].
  - rewrite (onMove_miss _ _ _ _ p) in Hrun by done.
    injection Hrun as <-. unfold lastMoveOf. simpl.
    rewrite lookup_insert_eq. split; [done|]. rewrite length_app. simpl. lia.
  - destruct (onMove_hit now socketId d w p l1 pillId pill l2)
      as (w1 & added & Hrun1 & _ & Hplayers & Htrace & Hone & _); try done.
    rewrite Hrun1 in Hrun. injection Hrun as <-. unfold lastMoveOf.
    rewrite Hplayers, lookup_insert_eq. split; [done|].
    rewrite Htrace, length_app. destruct added; [done | simpl; lia].
Qed.

Lemma acceptedMoves_spaced socketId events :
  Forall (λ x, isConnectionOf socketId x.2 = false) events →
  ∀ w,
    spaced (acceptedMoves socketId events w)
    ∧ match lastMoveOf socketId w with
      | None => acceptedMoves socketId events w = []
      | Some stamp =>
          Forall (λ t, (16 ≤ t - default 0 stamp)%Z)
            (acceptedMoves socketId events w)
      end.
Proof.
  induction 1 as [|[now e] events He _ IH]; intros w; simpl.
  { split; [constructor|]. by destruct (lastMoveOf socketId w). }
  simpl in He. destruct (exec (step now e) w) as [w'|] eqn:Hstep;
    [|split; [constructor | by destruct (lastMoveOf socketId w)]].
  destruct (IH w') as [Hsp Hbound].
  destruct (isMoveOf socketId e) eqn:Hm.
  - destruct e; try done. simpl in Hm. apply bool_decide_eq_true in Hm.
    subst. simpl in Hstep.
    apply onMove_outcome in Hstep as [->|(p & Hp & Ht & Hview & Hgrew)].
    + unfold grew. rewrite bool_decide_eq_false_2 by lia. simpl.
      apply IH.
    + unfold grew. rewrite bool_decide_eq_true_2 by done. simpl.
      rewrite Hview in Hbound. simpl in Hbound. split.
      * by constructor.
      * unfold lastMoveOf. rewrite Hp. simpl. constructor; [done|].
        eapply Forall_impl; [exact Hbound|]. simpl. intros t Ht'. lia.
  - simpl. split; [done|].
    assert (Hkept : viewKept (lastMoveOf socketId w) socketId w').
    { eapply (preserves_exec (viewKept _ socketId));
        [by apply step_viewKept | by left | exact Hstep]. }
    destruct Hkept as [Hsame|Hgone].
    + by rewrite <- Hsame.
    + rewrite Hgone in Hbound. rewrite Hbound.
      by destruct (lastMoveOf socketId w).
Qed.

Lemma spaced_lookup (ts : list Z) i j t1 t2 :
  spaced ts → i < j → ts !! i = Some t1 → ts !! j = Some t2 →
  (16 ≤ t2 - t1)%Z.
Proof.
  intros Hsp. revert i j. induction Hsp as [|t ts _ IH Hall]; [done|].
  intros [|i] [|j] Hij; try lia; simpl.
  - intros [= <-] Hj. rewrite Forall_forall in Hall.
    apply Hall. by eapply list_elem_of_lookup_2.
  - apply IH. lia.
Qed.

(** C3: the rate limit of one connection.  Along any run in which the
    socket id is not given to a new connection, any two accepted moves of
    the connection are at least 16 ms apart on the clock readings of their
    handlers.  A move that comes less than 16 ms after the last accepted
    one leaves the whole world as it was, so nothing is queued; and a move
    changes the world only if at least 16 ms have passed. *)
Theorem move_rate_limit (socketId : jsstring) (events : list (Z * event))
    (w : World) :
  Forall (λ x, isConnectionOf socketId x.2 = false) events →
  (∀ i j t1 t2,
     i < j →
     acceptedMoves socketId events w !! i = Some t1 →
     acceptedMoves socketId events w !! j = Some t2 →
     (16 ≤ t2 - t1)%Z)
  ∧ (∀ now data p,
       players (gameState w) !! socketId = Some p →
       (now - default 0 (Player.lastMovementUpdate p) < 16)%Z →
       onMove now socketId data w = Ok tt w)
  ∧ (∀ now data w',
       exec (onMove now socketId data) w = Some w' →
       w' ≠ w →
       ∃ p, players (gameState w) !! socketId = Some p
            ∧ (16 ≤ now - default 0 (Player.lastMovementUpdate p))%Z).
Proof.
  intros Hsame. split; [|split].
  - intros i j t1 t2. apply spaced_lookup.
    by apply acceptedMoves_spaced.
  - intros now data p Hp Ht. by apply (onMove_throttled _ _ _ _ p).
  - intros now data w' Hrun Hchanged.
    apply onMove_outcome in Hrun as [->|(p & Hp & Ht & _)]; [done|].
    by exists p.
Qed.
End rate_limit.

(** Of the five moves the first, the third and the fifth are accepted. *)
Lemma move_rate_limit_witness :
  @acceptedMoves Utc.host Scenario.socketA Burst.moves Burst.connected
    = [1003000; 1003016; 1003040]%Z
  ∧ (16 ≤ 1003016 - 1003000)%Z.
Proof.
  assert (Hsame : Forall (λ x, isConnectionOf Scenario.socketA x.2 = false)
                    Burst.moves) by (repeat constructor).
  assert (Hts : @acceptedMoves Utc.host Scenario.socketA Burst.moves
                  Burst.connected = [1003000; 1003016; 1003040]%Z)
    by (vm_compute; reflexivity).
  pose proof (@move_rate_limit Utc.host Scenario.socketA Burst.moves
                Burst.connected Hsame) as Hthm.
  destruct Hthm as (Hpair & _). split; [exact Hts|].
  apply (Hpair 0 1); [lia | by rewrite Hts | by rewrite Hts].
Defined.

(** ** More facts about insertion-ordered maps *)

Section jsmap_more.
Context {V : Type}.
Implicit Types (m : jsmap V) (k : jsstring) (v : V).

Lemma jsmap_get_set_eq m k v : JsMap.get k (JsMap.set k v m) = Some v.
Proof.
  induction m as [|[k' v'] m IH]; simpl.
  - by rewrite decide_True.
  - case_decide; simpl; [by rewrite decide_True | by rewrite decide_False].
Qed.

Lemma jsmap_get_set_ne m k k' v :
  k ≠ k' → JsMap.get k' (JsMap.set k v m) = JsMap.get k' m.
Proof.
  intros Hne. induction m as [|[k0 v0] m IH]; simpl.
  - by rewrite decide_False.
  - destruct (decide (k0 = k)) as [->|Hk0]; simpl.
    + by rewrite !decide_False.
    + by rewrite IH.
Qed.
End jsmap_more.

Section jsmap_forall.
Context {V : Type} (P : jsstring * V → Prop).

Lemma jsmap_Forall_set (m : jsmap V) k v :
  Forall P m → P (k, v) → Forall P (JsMap.set k v m).
Proof.
  intros Hm Hkv. induction Hm as [|[k' v'] m Hx Hm IH]; simpl.
  - by repeat constructor.
  - case_decide; by constructor.
Qed.

Lemma jsmap_Forall_delete (m : jsmap V) k :
  Forall P m → Forall P (JsMap.delete k m).
Proof.
  intros Hm. induction Hm as [|[k' v'] m Hx Hm IH]; simpl; [done|].
  case_decide; [done | by constructor].
Qed.
End jsmap_forall.

(** ** The order of an object's keys *)

Section ownPropertyOrder_facts.
Context {V : Type}.
Implicit Types (m : jsmap V) (k : jsstring) (v : V).

Lemma insertByIndex_perm i (e : jsstring * V) l :
  insertByIndex i e l ≡ₚ (i, e) :: l.
Proof.
  induction l as [|[j e'] l IH]; simpl; [done|].
  destruct (i <? j)%N; [done|]. rewrite IH. apply Permutation_swap.
Qed.

Lemma ownPropertyOrder_perm m : ownPropertyOrder m ≡ₚ m.
Proof.
  unfold ownPropertyOrder.
  assert (Hindexed :
    (foldr (λ (e : jsstring * V) acc,
              match arrayIndex e.1 with
              | Some i => insertByIndex i e acc
              | None => acc
              end) [] m).*2
    ≡ₚ filter (λ e, ¬ arrayIndex e.1 = None) m).
  { induction m as [|e m IH]; [done|]. simpl.
    destruct (arrayIndex e.1) as [i|] eqn:Hi.
    - rewrite insertByIndex_perm, filter_cons_True by (by rewrite Hi).
      csimpl. by rewrite IH.
    - by rewrite filter_cons_False by (rewrite Hi; auto). }
  rewrite Hindexed, (comm (++)). apply filter_app_complement.
Qed.

(** Without array indices among the keys the order is the order of
    creation. *)
Lemma ownPropertyOrder_named m :
  Forall (λ e, arrayIndex e.1 = None) m → ownPropertyOrder m = m.
Proof.
  intros Hm. unfold ownPropertyOrder.
  assert (Hindexed :
    foldr (λ (e : jsstring * V) acc,
             match arrayIndex e.1 with
             | Some i => insertByIndex i e acc
             | None => acc
             end) [] m = []).
  { induction Hm as [|e m He _ IH]; [done|]. simpl. by rewrite He. }
  rewrite Hindexed. simpl. clear Hindexed.
  induction Hm as [|e m He _ IH]; [done|].
  rewrite filter_cons_True by done. by rewrite IH.
Qed.

Lemma jsmap_get_elem m k v :
  JsMap.wf m → JsMap.get k m = Some v ↔ (k, v) ∈ m.
Proof.
  unfold JsMap.wf, JsMap.keys. induction m as [|[k' v'] m IH]; csimpl.
  - intros _. split; [done | by intros ?%elem_of_nil].
  - intros [Hk' Hm]%NoDup_cons. case_decide as Hk; subst.
    + split.
      * intros [= <-]. apply list_elem_of_here.
      * intros [[= <-]|Hin]%elem_of_cons; [done|]. exfalso. apply Hk'.
        by apply (list_elem_of_fmap_2 fst) in Hin.
    + rewrite IH by done. split.
      * intros Hin. by apply list_elem_of_further.
      * intros [[= ? ?]|Hin]%elem_of_cons; [by subst | done].
Qed.

Lemma jsmap_get_perm m m' k :
  JsMap.wf m → m' ≡ₚ m → JsMap.get k m' = JsMap.get k m.
Proof.
  intros Hm Hperm.
  assert (Hm' : JsMap.wf m').
  { unfold JsMap.wf, JsMap.keys in *. by rewrite Hperm. }
  apply option_eq. intros v.
  rewrite !jsmap_get_elem by done. by rewrite Hperm.
Qed.
End ownPropertyOrder_facts.

(** ** Start and shutdown: what is written and read back *)

Section startup_facts.
Context `{Host}.

Lemma gracefulShutdown_run w :
  gracefulShutdown w =
    Ok tt
      (set_trace
         (trace w ++
            [WriteFile (PlayerScoresFile (playerScores w));
             WriteFile (DailyLeaderboardFile
                          (currentDay (dailyLeaderboard w))
                          (topScores (dailyLeaderboard w))
                          (resetTime (dailyLeaderboard w)));
             WriteFile (AllTimeLeaderboardFile (allTimeLeaderboard w))]) w).
Proof.
  unfold gracefulShutdown, saveAllTimeLeaderboard. run_handler.
  unfold set_trace. simpl. by rewrite <- !app_assoc.
Qed.

Lemma lastWrite_shutdown w :
  let t := trace w ++
    [WriteFile (PlayerScoresFile (playerScores w));
     WriteFile (DailyLeaderboardFile
                  (currentDay (dailyLeaderboard w))
                  (topScores (dailyLeaderboard w))
                  (resetTime (dailyLeaderboard w)));
     WriteFile (AllTimeLeaderboardFile (allTimeLeaderboard w))] in
  lastWrite scoresWritten t = Parsed (playerScores w)
  ∧ lastWrite dailyWritten t =
      Parsed {| dd_currentDay := currentDay (dailyLeaderboard w);
                dd_topScores := Some (topScores (dailyLeaderboard w));
                dd_resetTime := resetTime (dailyLeaderboard w) |}
  ∧ lastWrite allTimeWritten t = Parsed (allTimeLeaderboard w).
Proof.
  unfold lastWrite. simpl. rewrite !omap_app. simpl.
  by rewrite !last_snoc.
Qed.
End startup_facts.

(** ** The daily leaderboard: reports and broadcasts *)

Section daily_facts.
Context `{Host}.

Lemma updateDailyLeaderboard_run now playerId name score w :
  let board' :=
    JsMap.set name (DailyEntry.mk name score now)
      (topScores (dailyLeaderboard w)) in
  updateDailyLeaderboard now playerId name score w =
    Ok tt
      (set_trace
         (trace w ++
            [WriteFile (DailyLeaderboardFile (currentDay (dailyLeaderboard w))
                          board' (resetTime (dailyLeaderboard w)));
             Emit ToAll (dailyLeaderboardUpdate (shownDaily board')
                           (currentDay (dailyLeaderboard w)))])
         (set_dailyLeaderboard
            (set_topScores board' (dailyLeaderboard w)) w)).
Proof.
  unfold updateDailyLeaderboard. run_handler. unfold set_trace. simpl.
  by rewrite <- app_assoc.
Qed.

Lemma sorted_take_drop {A} (score : A → Z) n (l : list A) a b :
  descending score l → a ∈ take n l → b ∈ drop n l → (score b ≤ score a)%Z.
Proof.
  unfold descending. intros Hl Ha Hb. rewrite <- (take_drop n l) in Hl.
  by eapply (StronglySorted_app_1_elem_of _ _ _ a b) in Hl.
Qed.

Lemma shownDaily_best board :
  let shown := shownDaily board in
  length shown ≤ 10
  ∧ descending DailyEntry.score shown
  ∧ shown ⊆ JsMap.values board
  ∧ ∀ e, e ∈ JsMap.values board →
         e ∈ shown ∨ ∀ s, s ∈ shown → (DailyEntry.score e ≤ DailyEntry.score s)%Z.
Proof.
  unfold shownDaily. split; [rewrite length_take; lia|]. split.
  { apply descending_take, sortDesc_descending. }
  split.
  { intros e He. apply subseteq_take in He. by rewrite sortDesc_perm in He. }
  intros e He. rewrite <- (sortDesc_perm DailyEntry.score) in He.
  rewrite <- (take_drop 10 (sortDesc _ _)) in He.
  apply elem_of_app in He as [He|He]; [by left|]. right. intros s Hs.
  eapply sorted_take_drop; [apply sortDesc_descending | exact Hs | exact He].
Qed.

End daily_facts.

(** ** Handlers, case by case *)

Section handler_cases.
Context `{Host}.

Lemma onSetUsername_absent now socketId username sessionToken w :
  players (gameState w) !! socketId = None →
  onSetUsername now socketId (UsernameObject username sessionToken) w = Ok tt w.
Proof.
  intros Hp. unfold onSetUsername. run_handler. rewrite Hp.
  by destruct username.
Qed.

Lemma onSetUsername_valid now socketId u mtok w p :
  players (gameState w) !! socketId = Some p →
  trim u ≠ [] →
  ∃ score tokens,
    onSetUsername now socketId (UsernameObject (UsernameString u) mtok) w
    = Ok tt (afterSetUsername w socketId p (substring0 15 (trim u)) score
               tokens now)
    ∧ ((score = 0%Z ∧ tokens = sessionTokens w)
       ∨ ∃ tok td, mtok = Some tok ∧ sessionTokens w !! tok = Some td
                   ∧ score = Token.score td
                   ∧ tokens = delete tok (sessionTokens w)).
Proof.
  intros Hp Hu.
  destruct mtok as [tok|];
    [|exists 0%Z, (sessionTokens w); split; [|by left];
      by apply (onSetUsername_fresh _ _ _ _ _ p)].
  destruct (decide (tok = [])) as [->|Htok];
    [exists 0%Z, (sessionTokens w); split; [|by left];
     apply (onSetUsername_fresh _ _ _ _ _ p); try done;
     by intros ?? [= <-]|].
  destruct (sessionTokens w !! tok) as [td|] eqn:Htd;
    [|exists 0%Z, (sessionTokens w); split; [|by left];
      apply (onSetUsername_fresh _ _ _ _ _ p); try done;
      intros ?? [= <-] _; by rewrite Htd].
  destruct (decide (Token.name td = substring0 15 (trim u))) as [Hn|Hn].
  - exists (Token.score td), (delete tok (sessionTokens w)). split.
    + by apply (onSetUsername_redeem _ _ _ _ td _ p).
    + right. by exists tok, td.
  - exists 0%Z, (sessionTokens w). split; [|by left].
    apply (onSetUsername_fresh _ _ _ _ _ p); try done.
    intros ?? [= <-] _. rewrite Htd. by intros [= <-].
Qed.

(** What a [setUsername] can do: nothing, or all of it. *)
Lemma onSetUsername_outcome now socketId data w a w' :
  onSetUsername now socketId data w = Ok a w' →
  w' = w
  ∨ ∃ p u mtok score tokens,
      players (gameState w) !! socketId = Some p
      ∧ trim u ≠ []
      ∧ w' = afterSetUsername w socketId p (substring0 15 (trim u)) score
               tokens now
      ∧ ((score = 0%Z ∧ tokens = sessionTokens w)
         ∨ ∃ tok td, mtok = Some tok ∧ sessionTokens w !! tok = Some td
                     ∧ score = Token.score td
                     ∧ tokens = delete tok (sessionTokens w)).
Proof.
  assert (Hstring : ∀ u mtok,
    onSetUsername now socketId (UsernameObject (UsernameString u) mtok) w
      = Ok a w' →
    w' = w
    ∨ ∃ p u mtok score tokens,
        players (gameState w) !! socketId = Some p
        ∧ trim u ≠ []
        ∧ w' = afterSetUsername w socketId p (substring0 15 (trim u)) score
                 tokens now
        ∧ ((score = 0%Z ∧ tokens = sessionTokens w)
           ∨ ∃ tok td, mtok = Some tok ∧ sessionTokens w !! tok = Some td
                       ∧ score = Token.score td
                       ∧ tokens = delete tok (sessionTokens w))).
  { intros u mtok.
    destruct (players (gameState w) !! socketId) as [p|] eqn:Hp;
      [|rewrite onSetUsername_absent by done; intros [= _ <-]; by left].
    destruct (decide (trim u = [])) as [Hu|Hu];
      [rewrite onSetUsername_blank by done; intros [= _ <-]; by left|].
    destruct (onSetUsername_valid now socketId u mtok w p Hp Hu)
      as (score & tokens & Hrun & Hcases).
    rewrite Hrun. intros [= _ <-]. right.
    by exists p, u, mtok, score, tokens. }
  destruct data as [u|[|u|] mtok|].
  - rewrite onSetUsername_bare. apply Hstring.
  - unfold onSetUsername. run_handler.
    destruct (players (gameState w) !! socketId); intros [= _ <-]; by left.
  - apply Hstring.
  - unfold onSetUsername. run_handler.
    destruct (players (gameState w) !! socketId); [done|].
    intros [= _ <-]. by left.
  - done.
Qed.

Lemma onSetUsername_tokens now socketId data w a w' :
  onSetUsername now socketId data w = Ok a w' →
  sessionTokens w' ⊆ sessionTokens w.
Proof.
  intros [->|(p & u & mtok & score & tokens & _ & _ & -> & Hcases)]%onSetUsername_outcome;
    [done|]. simpl.
  destruct Hcases as [[_ ->]|(tok & td & _ & _ & _ & ->)]; [done|].
  apply delete_subseteq.
Qed.

Lemma onDisconnect_unknown now socketId rnd w :
  players (gameState w) !! socketId = None →
  onDisconnect now socketId rnd w = Ok tt w.
Proof. intros Hp. unfold onDisconnect. run_handler. by rewrite Hp. Qed.

Lemma onDisconnect_quiet now socketId rnd w p :
  players (gameState w) !! socketId = Some p →
  Player.name p = [] ∨ (Player.score p ≤ 0)%Z →
  let rest := delete socketId (players (gameState w)) in
  onDisconnect now socketId rnd w =
    Ok tt
      (set_trace
         (trace w ++ [Emit ToAll (playerLeft socketId);
                      Emit ToAll (playerCountUpdate (size rest))])
         (set_playerCount (size rest) (set_players rest w))).
Proof.
  intros Hp Hquiet rest. unfold onDisconnect. run_handler. rewrite Hp.
  assert (Hc : truthy (Player.name p) && (0 <? Player.score p)%Z = false).
  { destruct Hquiet as [-> | Hs]; [done|].
    rewrite (proj2 (Z.ltb_ge _ _) Hs). apply andb_false_r. }
  rewrite Hc. simpl. unfold set_trace, set_playerCount, set_players. simpl.
  by rewrite <- app_assoc.
Qed.

Lemma onRespawn_run socketId w :
  onRespawn socketId w =
    Ok tt (match players (gameState w) !! socketId with
           | Some _ => set_respawnTimers (respawnTimers w ++ [socketId]) w
           | None => w
           end).
Proof.
  unfold onRespawn. run_handler. by destruct (players (gameState w) !! socketId).
Qed.

Lemma respawnTimeout_gone r1 r2 w socketId rest :
  respawnTimers w = socketId :: rest →
  players (gameState w) !! socketId = None →
  respawnTimeout r1 r2 w = Ok tt (set_respawnTimers rest w).
Proof.
  intros Ht Hp. unfold respawnTimeout. run_handler. rewrite Ht. simpl.
  by rewrite Hp.
Qed.

Lemma respawnTimeout_alive r1 r2 w socketId rest p :
  respawnTimers w = socketId :: rest →
  players (gameState w) !! socketId = Some p →
  respawnTimeout r1 r2 w =
    Ok tt
      (set_trace
         (trace w ++ [Emit ToAll (playerRespawned (respawnedPlayer p r1 r2))])
         (set_players
            (<[socketId := respawnedPlayer p r1 r2]> (players (gameState w)))
            (set_respawnTimers rest w))).
Proof.
  intros Ht Hp. unfold respawnTimeout. run_handler. rewrite Ht. simpl.
  rewrite Hp. simpl. rewrite !lookup_alter_eq, Hp. simpl.
  unfold set_trace, set_players, set_respawnTimers. simpl.
  rewrite (alter_to_insert (players (gameState w)) _ p) by done.
  by rewrite !alter_insert_same.
Qed.

Lemma countdownTick_waiting now w :
  (now < default 0 (resetTime (dailyLeaderboard w)))%Z →
  let remaining := (default 0 (resetTime (dailyLeaderboard w)) - now)%Z in
  countdownTick now w =
    Ok tt
      (set_trace (trace w ++ [Emit ToAll (timeUpdate remaining)])
         (set_dailyLeaderboard
            (set_timeRemaining remaining (dailyLeaderboard w)) w)).
Proof.
  intros Hearly remaining. unfold countdownTick, updateTimeRemaining.
  run_handler. rewrite Z.max_r by lia.
  fold remaining. by rewrite (proj2 (Z.leb_gt _ _)) by (unfold remaining; lia).
Qed.

Lemma onConnection_run now socketId r1 r2 colorIndex w :
  let newPlayer :=
    Player.mk socketId (Some (getRandomSpawnPoint r1 r2).1)
      (Some (getRandomSpawnPoint r1 r2).2) 100 100
      (getRandomColor colorIndex)
      (js "Player " ++ js (pretty (nextPlayerId w)))
      0 1%float 0%float 0 0 now None in
  ∃ w', onConnection now socketId r1 r2 colorIndex w = Ok tt w'
    ∧ players (gameState w') = <[socketId := newPlayer]> (players (gameState w))
    ∧ nextPlayerId w' = S (nextPlayerId w)
    ∧ sessionTokens w' = sessionTokens w
    ∧ pills (gameState w') = pills (gameState w)
    ∧ ∃ snapshot,
        trace w' = trace w ++
          [Emit (ToSocket socketId) (gameStateMsg snapshot);
           Emit ToAll (playerUpdate (playerUpdateOf newPlayer 0%float None));
           Emit ToAll (playerCountUpdate (size (players (gameState w'))))]
        ∧ sn_players snapshot = players (gameState w')
        ∧ sn_pills snapshot = pills (gameState w).
Proof.
  intros newPlayer. unfold onConnection. run_handler.
  eexists. split; [reflexivity|]. simpl. repeat (split; [done|]).
  eexists. split; [rewrite <- !app_assoc; reflexivity|]. done.
Qed.

(** What an accepted move leaves of the players. *)
Lemma onMove_players now socketId data w w' :
  exec (onMove now socketId data) w = Some w' →
  w' = w
  ∨ ∃ p d,
      players (gameState w) !! socketId = Some p
      ∧ (players (gameState w')
           = <[socketId := movedPlayer p d now]> (players (gameState w))
         ∨ ∃ pillId pill,
             (pillId, pill) ∈ pills (gameState w)
             ∧ players (gameState w')
                 = <[socketId :=
                       Player.set_score (Player.score p + Pill.points pill)
                         (movedPlayer p d now)]> (players (gameState w))).
Proof.
  unfold exec. destruct (players (gameState w) !! socketId) as [p|] eqn:Hp;
    [|rewrite onMove_absent by done; intros [= <-]; by left].
  destruct (decide (0 < Player.health p)%Z) as [Hh|Hh];
    [|rewrite (onMove_dead _ _ _ _ p) by (done || lia);
      intros [= <-]; by left].
  destruct (decide (16 ≤ now - default 0 (Player.lastMovementUpdate p))%Z)
    as [Ht|Ht];
    [|rewrite (onMove_throttled _ _ _ _ p) by (done || lia);
      intros [= <-]; by left].
  destruct data as [d|]; [|by rewrite (onMove_nullish _ _ _ p)].
  intros Hrun. right. exists p, d. split; [done|].
  destruct (first_in_reach (md_x d) (md_y d) (pills (gameState w)))
    as [Hnone|(l1 & pillId & pill & l2 & Hpills & Hl1 & Hin)].
  - rewrite (onMove_miss _ _ _ _ p) in Hrun by done.
    injection Hrun as <-. by left.
  - destruct (onMove_hit now socketId d w p l1 pillId pill l2)
      as (w1 & added & Hrun1 & _ & Hplayers & _); try done.
    rewrite Hrun1 in Hrun. injection Hrun as <-. right.
    exists pillId, pill. split; [|done]. rewrite Hpills.
    apply elem_of_app. right. apply list_elem_of_here.
Qed.

Lemma cleanupExpiredTokens_subseteq now w a w' :
  cleanupExpiredTokens now w = Ok a w' →
  sessionTokens w' ⊆ sessionTokens w.
Proof.
  destruct (cleanupExpiredTokens_run now w) as (w1 & Hrun & Hlook & _).
  rewrite Hrun. intros [= _ <-]. apply map_subseteq_spec. intros tok td.
  rewrite Hlook. destruct (sessionTokens w !! tok) as [td'|]; [|done].
  by destruct (expired now td').
Qed.

End handler_cases.

(** ** What every turn of the loop keeps *)

Section loop_invariants.
Context `{Host}.

Lemma size_alter_players (f : Player.t → Player.t) (k : jsstring)
    (m : gmap jsstring Player.t) :
  size (alter f k m) = size m.
Proof.
  rewrite <- !size_dom. f_equal. apply dom_alter_L.
Qed.

Ltac count_tac :=
  unfold countConsistent in *; simpl in *;
  first [ done | by rewrite size_alter_players ].

Lemma scanPills_countConsistent now playerId playerX playerY player entries :
  preserves countConsistent
    (scanPills now playerId playerX playerY player entries).
Proof.
  induction entries as [|[pillId pill] rest IH]; simpl.
  - apply preserves_ret.
  - destruct (inReach _ _ _); [|done]. preserve IH count_tac.
Qed.

Lemma onConnection_countConsistent now socketId r1 r2 colorIndex :
  preserves countConsistent (onConnection now socketId r1 r2 colorIndex).
Proof.
  intros w a w' _. unfold onConnection. run_handler. by intros [= _ <-].
Qed.

Lemma onDisconnect_countConsistent now socketId rnd :
  preserves countConsistent (onDisconnect now socketId rnd).
Proof.
  intros w a w' Hw. unfold onDisconnect, updateDailyLeaderboard. run_handler.
  destruct (players (gameState w) !! socketId) as [p|]; [|by intros [= _ <-]].
  destruct (truthy (Player.name p) && (0 <? Player.score p)%Z);
    by intros [= _ <-].
Qed.

Lemma step_countConsistent now e : preserves countConsistent (step now e).
Proof.
  destruct e; simpl;
    try apply onConnection_countConsistent;
    try apply onDisconnect_countConsistent;
    try (unfold initialSpawnTick, spawnTick);
    preserve scanPills_countConsistent count_tac.
Qed.

Ltac ramp_tac := unfold rampWithinBudget in *; simpl in *; first [ done | lia ].

Lemma scanPills_ramp now playerId playerX playerY player entries :
  preserves rampWithinBudget
    (scanPills now playerId playerX playerY player entries).
Proof.
  induction entries as [|[pillId pill] rest IH]; simpl.
  - apply preserves_ret.
  - destruct (inReach _ _ _); [|done]. preserve IH ramp_tac.
Qed.

Lemma initialSpawnTick_ramp now rnd r1 r2 :
  preserves rampWithinBudget (initialSpawnTick now rnd r1 r2).
Proof.
  intros w a w' Hw. unfold initialSpawnTick, mbind, M_bind, gets.
  destruct (initialSpawnInterval w); [|by intros [= _ <-]].
  case_bool_decide as Hlt; [|by intros [= _ <-]].
  destruct (generatePill now rnd r1 r2 w) as [[] w1|] eqn:Hgen; [|done].
  unfold modify. intros [= _ <-]. unfold rampWithinBudget. simpl. lia.
Qed.

Lemma step_ramp now e : preserves rampWithinBudget (step now e).
Proof.
  destruct e; simpl; try apply initialSpawnTick_ramp; try (unfold spawnTick);
    preserve scanPills_ramp ramp_tac.
Qed.

Ltac ledger_tac :=
  unfold ledgerKeeps in *; simpl in *;
  first [ done | rewrite dom_insert_L; set_solver ].

Lemma scanPills_ledger keys now playerId playerX playerY player entries :
  preserves (ledgerKeeps keys)
    (scanPills now playerId playerX playerY player entries).
Proof.
  induction entries as [|[pillId pill] rest IH]; simpl.
  - apply preserves_ret.
  - destruct (inReach _ _ _); [|done]. preserve IH ledger_tac.
Qed.

Lemma step_ledger keys now e : preserves (ledgerKeeps keys) (step now e).
Proof.
  destruct e; simpl; try (unfold initialSpawnTick, spawnTick);
    preserve (scanPills_ledger keys) ledger_tac.
Qed.

Ltac nextId_tac := unfold nextIdIs in *; simpl in *; done.

Lemma scanPills_nextId n now playerId playerX playerY player entries :
  preserves (nextIdIs n)
    (scanPills now playerId playerX playerY player entries).
Proof.
  induction entries as [|[pillId pill] rest IH]; simpl.
  - apply preserves_ret.
  - destruct (inReach _ _ _); [|done]. preserve IH nextId_tac.
Qed.

Lemma step_nextId n now e :
  isConnection e = false → preserves (nextIdIs n) (step now e).
Proof.
  destruct e; try done; intros _; simpl;
    try (unfold initialSpawnTick, spawnTick);
    preserve (scanPills_nextId n) nextId_tac.
Qed.

Ltac tokensAre_tac := unfold tokensAre in *; simpl in *; done.

Lemma scanPills_tokensAre store now playerId playerX playerY player entries :
  preserves (tokensAre store)
    (scanPills now playerId playerX playerY player entries).
Proof.
  induction entries as [|[pillId pill] rest IH]; simpl.
  - apply preserves_ret.
  - destruct (inReach _ _ _); [|done]. preserve IH tokensAre_tac.
Qed.

Lemma step_tokensAre store now e :
  touchesTokens e = false → preserves (tokensAre store) (step now e).
Proof.
  destruct e; try done; intros _; simpl;
    try (unfold initialSpawnTick, spawnTick);
    preserve (scanPills_tokensAre store) tokensAre_tac.
Qed.

End loop_invariants.

(** ** Scores, tokens and pills *)

Section accounts.
Context `{Host}.

Ltac pills_tac :=
  unfold pillsSound in *; simpl in *;
  first
    [ done
    | by apply jsmap_Forall_delete
    | by apply jsmap_Forall_set ].

Lemma scanPills_pillsSound now playerId playerX playerY player entries :
  preserves pillsSound (scanPills now playerId playerX playerY player entries).
Proof.
  induction entries as [|[pillId pill] rest IH]; simpl.
  - apply preserves_ret.
  - destruct (inReach _ _ _); [|done]. preserve IH pills_tac.
Qed.

Lemma step_pillsSound now e : preserves pillsSound (step now e).
Proof.
  destruct e; simpl; try (unfold initialSpawnTick, spawnTick);
    preserve scanPills_pillsSound pills_tac.
Qed.

Lemma scoresSound_insert (w w' : World) socketId p :
  scoresSound w →
  (0 ≤ Player.score p)%Z →
  players (gameState w') = <[socketId := p]> (players (gameState w)) →
  scoresSound w'.
Proof.
  intros Hw Hp Hplayers s q. rewrite Hplayers, lookup_insert.
  case_decide; [by intros [= <-] | apply Hw].
Qed.

Lemma scoresSound_alter (w : World) (f : Player.t → Player.t)
    (k : jsstring) :
  (∀ p, Player.score (f p) = Player.score p) →
  scoresSound w →
  scoresSound (set_players (alter f k (players (gameState w))) w).
Proof.
  intros Hf Hw s q. simpl. rewrite lookup_alter. case_decide; [subst|apply Hw].
  destruct (players (gameState w) !! s) as [p|] eqn:Hp; [|done].
  simpl. intros [= <-]. rewrite Hf. by eapply Hw.
Qed.

Ltac scores_tac :=
  first
    [ by unfold scoresSound in *; simpl in *
    | by apply scoresSound_alter
    | eapply scoresSound_insert; [eassumption | | reflexivity]; simpl; lia
    | match goal with
      | HP : scoresSound _ |- scoresSound (set_players (delete _ _) _) =>
          let s := fresh in let q := fresh in
          intros s q; simpl; rewrite lookup_delete; case_decide;
          [done | apply HP]
      end ].

Lemma step_scoresSound now e w w' :
  accountsSound w → exec (step now e) w = Some w' → scoresSound w'.
Proof.
  intros (Hpills & Hscores & Htokens) Hstep.
  destruct e as [s r1 r2 c|s data|s data|s|r1 r2|s rnd| | | |rnd r1 r2|rnd r1 r2];
    simpl in Hstep.
  3:{ apply onMove_players in Hstep
        as [->|(p & d & Hp & [Hpl|(pillId & pill & Hin & Hpl)])]; [done|..].
      - eapply scoresSound_insert; [exact Hscores| |exact Hpl]. simpl.
        by eapply Hscores.
      - eapply scoresSound_insert; [exact Hscores| |exact Hpl]. simpl.
        unfold pillsSound in Hpills. rewrite Forall_forall in Hpills.
        destruct (Hpills _ Hin) as [_ Hone]. simpl in Hone. rewrite Hone.
        specialize (Hscores _ _ Hp). lia. }
  2:{ apply exec_Some in Hstep as [a Hstep].
      apply onSetUsername_outcome in Hstep
        as [->|(p & u & mtok & score & tokens & Hp & _ & -> & Hcases)];
        [done|].
      eapply scoresSound_insert; [exact Hscores| |reflexivity]. simpl.
      destruct Hcases as [[-> _]|(tok & td & _ & Htd & -> & _)]; [done|].
      destruct (Htokens _ _ Htd). lia. }
  all: revert Hstep; apply preserves_exec; [|done];
    try (unfold initialSpawnTick, spawnTick);
    preserve I scores_tac.
Qed.

Lemma tokensSound_subseteq (w w' : World) :
  sessionTokens w' ⊆ sessionTokens w → tokensSound w → tokensSound w'.
Proof.
  intros Hsub Hw tok td Htd. apply (Hw tok).
  by eapply lookup_weaken.
Qed.

Lemma step_tokensSound now e w w' :
  tokensSound w → exec (step now e) w = Some w' → tokensSound w'.
Proof.
  intros Htokens Hstep.
  destruct (touchesTokens e) eqn:He.
  - destruct e; try done; simpl in Hstep;
      apply exec_Some in Hstep as [a Hstep].
    + eapply tokensSound_subseteq; [|done].
      by eapply onSetUsername_tokens.
    + destruct (players (gameState w) !! socketId) as [p|] eqn:Hp;
        [|rewrite onDisconnect_unknown in Hstep by done;
          revert Hstep; by intros [= _ <-]].
      destruct (decide (Player.name p = [] ∨ (Player.score p ≤ 0)%Z))
        as [Hquiet|Hloud].
      * rewrite (onDisconnect_quiet _ _ _ _ p) in Hstep by done.
        revert Hstep. by intros [= _ <-].
      * destruct (onDisconnect_mint now socketId rnd w p) as
          (w1 & Hrun & Hstore & _); [done | tauto | lia |].
        rewrite Hrun in Hstep. revert Hstep. intros [= _ <-].
        intros tok td. rewrite Hstore, lookup_insert. case_decide.
        -- intros [= <-]. simpl. split; [tauto | lia].
        -- apply Htokens.
    + eapply tokensSound_subseteq; [|done].
      by eapply cleanupExpiredTokens_subseteq.
  - eapply (preserves_exec (tokensAre (sessionTokens w))) in Hstep;
      [|by apply step_tokensAre | done].
    unfold tokensAre in Hstep. unfold tokensSound. by rewrite Hstep.
Qed.

Lemma step_accountsSound now e : preserves accountsSound (step now e).
Proof.
  intros w a w' Hw Hstep.
  assert (Hexec : exec (step now e) w = Some w').
  { unfold exec. by rewrite Hstep. }
  split; [|split].
  - eapply step_pillsSound; [apply Hw | exact Hstep].
  - by eapply step_scoresSound.
  - eapply step_tokensSound; [apply Hw | exact Hexec].
Qed.

End accounts.

(** ** The best of the all-time board *)

Section dominance.
Context `{Host}.

Lemma sortDesc_head {A} (score : A → Z) (l : list A) x :
  x ∈ l →
  ∃ h t, sortDesc score l = h :: t ∧ (score x ≤ score h)%Z.
Proof.
  intros Hx. pose proof (sortDesc_descending score l) as Hdesc.
  rewrite <- (sortDesc_perm score) in Hx.
  destruct (sortDesc score l) as [|h t]; [by apply elem_of_nil in Hx|].
  exists h, t. split; [done|]. unfold descending in Hdesc.
  apply StronglySorted_inv in Hdesc as [_ Hall].
  apply elem_of_cons in Hx as [->|Hx]; [lia|].
  rewrite Forall_forall in Hall. by apply Hall.
Qed.

Lemma rankAllTime_covers newEntry board e :
  e ∈ board →
  ∃ e', e' ∈ rankAllTime newEntry board
        ∧ (AllTimeEntry.score e ≤ AllTimeEntry.score e')%Z.
Proof.
  intros He. unfold rankAllTime.
  set (board' := match list_find _ board with
                 | Some (i, existing) =>
                     if (AllTimeEntry.score existing
                         <? AllTimeEntry.score newEntry)%Z
                     then <[i := newEntry]> board else board
                 | None => board ++ [newEntry]
                 end).
  assert (Hpre : ∃ x, x ∈ board'
                      ∧ (AllTimeEntry.score e ≤ AllTimeEntry.score x)%Z).
  { subst board'. destruct (list_find _ board) as [[i existing]|] eqn:Hfind.
    - destruct (_ <? _)%Z eqn:Hlt; [|by exists e].
      apply Z.ltb_lt in Hlt. apply list_find_Some in Hfind as (Hi & _ & _).
      apply list_elem_of_lookup in He as [j Hj].
      destruct (decide (i = j)) as [->|Hne].
      + exists newEntry. split.
        * apply list_elem_of_lookup. exists j.
          apply list_lookup_insert_eq. by eapply lookup_lt_Some.
        * rewrite Hi in Hj. injection Hj as <-. lia.
      + exists e. split; [|done]. apply list_elem_of_lookup. exists j.
        by rewrite list_lookup_insert_ne.
    - exists e. split; [|done]. apply elem_of_app. by left. }
  destruct Hpre as (x & Hx & Hle).
  destruct (sortDesc_head AllTimeEntry.score board' x Hx)
    as (h & t & Hsorted & Hh).
  exists h. rewrite Hsorted. split; [apply list_elem_of_here | lia].
Qed.

Ltac covers_tac :=
  first
    [ by unfold boardCovers in *; simpl in *
    | match goal with
      | HP : boardCovers _ _ |- boardCovers _ _ =>
          let e := fresh in let He := fresh in
          intros e He; simpl;
          destruct (HP e He) as (? & ? & ?);
          edestruct rankAllTime_covers as (? & ? & ?); [eassumption|];
          eexists; split; [eassumption | lia]
      end ].

Lemma scanPills_boardCovers board now playerId playerX playerY player entries :
  preserves (boardCovers board)
    (scanPills now playerId playerX playerY player entries).
Proof.
  induction entries as [|[pillId pill] rest IH]; simpl.
  - apply preserves_ret.
  - destruct (inReach _ _ _); [|done]. preserve IH covers_tac.
Qed.

Lemma step_boardCovers board now e : preserves (boardCovers board) (step now e).
Proof.
  destruct e; simpl; try (unfold initialSpawnTick, spawnTick);
    preserve (scanPills_boardCovers board) covers_tac.
Qed.
End dominance.

(** ** Names and token strings *)

Section trim_facts.
Implicit Types (s : jsstring).

Lemma trimStart_split s :
  ∃ blank, s = blank ++ trimStart s ∧ Forall (λ c, isWhiteSpace c = true) blank.
Proof.
  induction s as [|c s IH]; simpl; [by exists []|].
  destruct (isWhiteSpace c) eqn:Hc; [|by exists []].
  destruct IH as (blank & Hs & Hblank). exists (c :: blank).
  split; [by rewrite <- app_comm_cons, <- Hs | by constructor].
Qed.

Lemma trimStart_head s c rest :
  trimStart s = c :: rest → isWhiteSpace c = false.
Proof.
  induction s as [|c' s IH]; simpl; [done|].
  destruct (isWhiteSpace c') eqn:Hc; [done|]. by intros [= <- _].
Qed.

(** [trimEnd] cuts a run of white space off the end. *)
Lemma trimEnd_split s :
  ∃ blank, s = trimEnd s ++ blank ∧ Forall (λ c, isWhiteSpace c = true) blank.
Proof.
  unfold trimEnd. destruct (trimStart_split (reverse s)) as (blank & Hs & Hb).
  exists (reverse blank). split.
  - rewrite <- reverse_app, <- Hs. by rewrite reverse_involutive.
  - by apply Forall_reverse.
Qed.

Lemma trim_head s c rest : trim s = c :: rest → isWhiteSpace c = false.
Proof.
  unfold trim. intros Ht.
  destruct (trimEnd_split (trimStart s)) as (blank & Hs & _).
  rewrite Ht in Hs. by apply trimStart_head in Hs.
Qed.

Lemma trim_last s front c : trim s = front ++ [c] → isWhiteSpace c = false.
Proof.
  unfold trim, trimEnd. intros Ht. apply (f_equal reverse) in Ht.
  rewrite reverse_involutive, reverse_snoc in Ht.
  by apply trimStart_head in Ht.
Qed.

(** The name [setUsername] stores. *)
Lemma sanitized_shape u :
  trim u ≠ [] →
  let name := substring0 15 (trim u) in
  1 ≤ length name ≤ 15
  ∧ length name = length (trim u) `min` 15
  ∧ ∃ c rest, name = c :: rest ∧ isWhiteSpace c = false.
Proof.
  intros Hu name. subst name. unfold substring0. rewrite length_take.
  destruct (trim u) as [|c rest] eqn:Ht; [done|]. cbn [length].
  split; [lia|]. split; [lia|]. exists c, (take 14 rest). split; [done|].
  by eapply trim_head.
Qed.
End trim_facts.

Section token_strings.

Lemma pretty_N_char_digit x : isDigitOrDash (pretty_N_char x).
Proof.
  unfold isDigitOrDash, pretty_N_char.
  repeat case_match; by repeat constructor.
Qed.

Lemma pretty_N_go_chars x s :
  Forall isDigitOrDash (chars s) → Forall isDigitOrDash (chars (pretty_N_go x s)).
Proof.
  revert s. induction (N.lt_wf_0 x) as [x _ IH]; intros s Hs.
  destruct (decide (x = 0)%N) as [->|Hx]; [by rewrite pretty_N_go_0|].
  rewrite pretty_N_go_step by lia. apply IH; [apply N.div_lt; lia|].
  simpl. constructor; [apply pretty_N_char_digit | done].
Qed.

Lemma pretty_Z_chars (z : Z) : Forall isDigitOrDash (chars (pretty z)).
Proof.
  assert (HN : ∀ n : N, Forall isDigitOrDash (chars (pretty n))).
  { intros n. unfold pretty, pretty_N. case_decide.
    - by repeat constructor.
    - apply pretty_N_go_chars. constructor. }
  destruct z as [|p|p]; unfold pretty, pretty_Z.
  - by repeat constructor.
  - apply (HN (Npos p)).
  - simpl. constructor; [by repeat constructor|]. apply (HN (Npos p)).
Qed.

Lemma js_inj (s1 s2 : string) : js s1 = js s2 → s1 = s2.
Proof.
  unfold js. intros Heq.
  assert (Hinj : Inj (=) (=) (λ a : ascii, N_of_ascii a)).
  { intros a b Hab.
    rewrite <- (ascii_N_embedding a), <- (ascii_N_embedding b).
    by rewrite Hab. }
  apply (list_fmap_eq_inj _ Hinj) in Heq.
  rewrite <- (string_of_list_ascii_of_string s1),
    <- (string_of_list_ascii_of_string s2). by rewrite Heq.
Qed.

Lemma js_chars (s : string) : js s = N_of_ascii <$> chars s.
Proof.
  unfold js. by f_equal.
Qed.

(** The rendering of a clock reading has no underscore in it. *)
Lemma showZ_no_underscore (z : Z) : 95%N ∉ showZ z.
Proof.
  unfold showZ. rewrite js_chars. intros [a [Ha Hin]]%list_elem_of_fmap.
  pose proof (pretty_Z_chars z) as Hall. rewrite Forall_forall in Hall.
  specialize (Hall a Hin). unfold isDigitOrDash in Hall.
  repeat (apply elem_of_cons in Hall as [-> | Hall]; [by vm_compute in Ha|]).
  by apply elem_of_nil in Hall.
Qed.

Lemma split_at_first {A} (x : A) (a a' b b' : list A) :
  x ∉ a → x ∉ a' → a ++ x :: b = a' ++ x :: b' → a = a' ∧ b = b'.
Proof.
  revert a'. induction a as [|y a IH]; intros [|y' a'] Ha Ha'; simpl.
  - by intros [= ->].
  - intros [= <- _]. exfalso. apply Ha'. apply list_elem_of_here.
  - intros [= -> _]. exfalso. apply Ha. apply list_elem_of_here.
  - intros [= -> Heq]. rewrite not_elem_of_cons in Ha, Ha'.
    destruct (IH a') as [-> ->]; tauto.
Qed.

Lemma generateSessionToken_inj now rnd now' rnd' :
  generateSessionToken now rnd = generateSessionToken now' rnd' →
  now = now' ∧ rnd = rnd'.
Proof.
  unfold generateSessionToken. intros Heq. apply app_inv_head in Heq.
  apply split_at_first in Heq as [Hnow ->];
    [|apply showZ_no_underscore..].
  split; [|done]. unfold showZ in Hnow. apply js_inj in Hnow.
  by apply (inj pretty) in Hnow.
Qed.

End token_strings.

(** ** Start and shutdown: properties *)

Section startup_claims.
Context `{Host}.

(** X21: a start without usable files.  Whether each of the three files
    is missing or cannot be read or parsed, the start leaves the server
    in the same state: empty ledger and boards, no tokens, the reset set
    for the next midnight. *)
Theorem cold_start (now : Z) (b1 b2 b3 : bool) :
  exec (startup now (if b1 then NoFile else BadFile)
          (if b2 then NoFile else BadFile)
          (if b3 then NoFile else BadFile)) (moduleInit now)
  = Some (initialWorld now).
Proof. by destruct b1, b2, b3. Qed.

(** X22: shutdown and start.  The shutdown handler writes the three
    files; a start from them has the ledger and the all-time board as
    they were, no session tokens, no players and no pills, and the reset
    set for the next midnight.  On the same day the daily board comes
    back with every name's entry, in the order in which an object lists
    its keys, which is the order it had unless a name is the decimal
    form of an array index; started on another day the daily board is
    empty. *)
Theorem restart_round_trip (w : World) (now : Z) :
  ∃ w1 w2,
    exec gracefulShutdown w = Some w1
    ∧ exec (startup now (lastWrite scoresWritten (trace w1))
              (lastWrite dailyWritten (trace w1))
              (lastWrite allTimeWritten (trace w1))) (moduleInit now)
      = Some w2
    ∧ playerScores w2 = playerScores w
    ∧ allTimeLeaderboard w2 = allTimeLeaderboard w
    ∧ sessionTokens w2 = ∅
    ∧ players (gameState w2) = ∅
    ∧ pills (gameState w2) = []
    ∧ resetTime (dailyLeaderboard w2) = Some (nextMidnight now)
    ∧ (currentDay (dailyLeaderboard w) = toDateString now →
       currentDay (dailyLeaderboard w2) = currentDay (dailyLeaderboard w)
       ∧ topScores (dailyLeaderboard w2)
           = ownPropertyOrder (topScores (dailyLeaderboard w))
       ∧ (JsMap.wf (topScores (dailyLeaderboard w)) →
          ∀ name, JsMap.get name (topScores (dailyLeaderboard w2))
                  = JsMap.get name (topScores (dailyLeaderboard w)))
       ∧ (Forall (λ e, arrayIndex e.1 = None)
            (topScores (dailyLeaderboard w)) →
          topScores (dailyLeaderboard w2) = topScores (dailyLeaderboard w)))
    ∧ (currentDay (dailyLeaderboard w) ≠ toDateString now →
       currentDay (dailyLeaderboard w2) = toDateString now
       ∧ topScores (dailyLeaderboard w2) = []).
Proof.
  exists (set_trace
            (trace w ++
               [WriteFile (PlayerScoresFile (playerScores w));
                WriteFile (DailyLeaderboardFile
                             (currentDay (dailyLeaderboard w))
                             (topScores (dailyLeaderboard w))
                             (resetTime (dailyLeaderboard w)));
                WriteFile (AllTimeLeaderboardFile (allTimeLeaderboard w))]) w).
  destruct (lastWrite_shutdown w) as (Hscores & Hdaily & HallTime).
  simpl. rewrite Hscores, Hdaily, HallTime.
  unfold exec. rewrite gracefulShutdown_run.
  unfold startup, loadDailyLeaderboard, initializeDailyReset,
    updateTimeRemaining. simpl.
  destruct (decide (currentDay (dailyLeaderboard w) = toDateString now))
    as [Hday|Hday].
  - rewrite bool_decide_eq_true_2 by done. run_handler.
    eexists. split; [done|]. split; [reflexivity|]. simpl.
    repeat (split; [done|]). split; [|done].
    intros _. split; [done|]. split; [done|]. split.
    + intros Hwf name.
      apply jsmap_get_perm; [done | apply ownPropertyOrder_perm].
    + apply ownPropertyOrder_named.
  - rewrite bool_decide_eq_false_2 by done. run_handler.
    eexists. split; [done|]. split; [reflexivity|]. simpl.
    repeat (split; [done|]). done.
Qed.
End startup_claims.

(** ** Further properties of the handlers *)

Section daily_claims.
Context `{Host}.

Ltac keyed_tac :=
  first
    [ by unfold dailyKeyed in *; simpl in *
    | unfold dailyKeyed in *; simpl in *; split;
      [ first [ apply jsmap_wf_set; tauto | constructor ]
      | first [ by apply jsmap_Forall_set; [tauto|] | constructor ] ] ].

Lemma scanPills_dailyKeyed now playerId playerX playerY player entries :
  preserves dailyKeyed (scanPills now playerId playerX playerY player entries).
Proof.
  induction entries as [|[pillId pill] rest IH]; simpl.
  - apply preserves_ret.
  - destruct (inReach _ _ _); [|done]. preserve IH keyed_tac.
Qed.

Lemma step_dailyKeyed now e : preserves dailyKeyed (step now e).
Proof.
  destruct e; simpl; try (unfold initialSpawnTick, spawnTick);
    preserve scanPills_dailyKeyed keyed_tac.
Qed.

(** X1: a report to the daily leaderboard overwrites.  Whatever the board
    holds under the name, a higher score or a lower one, the entry becomes
    the reported score with the time of the report; the entries of the
    other names stay; the name keeps its place in the board or, when new,
    goes to the end.  The socket id of the reporter plays no part: a second
    report under the same name from another connection replaces the first. *)
Theorem daily_report_overwrites (now : Z) (playerId name : jsstring)
    (score : Z) (w : World) :
  ∃ w',
    exec (updateDailyLeaderboard now playerId name score) w = Some w'
    ∧ JsMap.get name (topScores (dailyLeaderboard w'))
        = Some (DailyEntry.mk name score now)
    ∧ (∀ other, name ≠ other →
         JsMap.get other (topScores (dailyLeaderboard w'))
         = JsMap.get other (topScores (dailyLeaderboard w)))
    ∧ (JsMap.keys (topScores (dailyLeaderboard w'))
         = JsMap.keys (topScores (dailyLeaderboard w))
       ∨ ((name ∉ JsMap.keys (topScores (dailyLeaderboard w)))
          ∧ JsMap.keys (topScores (dailyLeaderboard w'))
              = JsMap.keys (topScores (dailyLeaderboard w)) ++ [name]))
    ∧ currentDay (dailyLeaderboard w') = currentDay (dailyLeaderboard w)
    ∧ allTimeLeaderboard w' = allTimeLeaderboard w
    ∧ ∀ now2 playerId2 score2,
        ∃ w'',
          exec (updateDailyLeaderboard now2 playerId2 name score2) w'
            = Some w''
          ∧ JsMap.get name (topScores (dailyLeaderboard w''))
              = Some (DailyEntry.mk name score2 now2)
          ∧ JsMap.keys (topScores (dailyLeaderboard w''))
              = JsMap.keys (topScores (dailyLeaderboard w')).
Proof.
  eexists. split; [unfold exec; by rewrite updateDailyLeaderboard_run|].
  simpl. split; [apply jsmap_get_set_eq|].
  split; [intros other Hne; by apply jsmap_get_set_ne|].
  split; [apply jsmap_keys_set|]. split; [done|]. split; [done|].
  intros now2 playerId2 score2. eexists.
  split; [unfold exec; by rewrite updateDailyLeaderboard_run|].
  simpl. split; [apply jsmap_get_set_eq|].
  destruct (jsmap_keys_set
              (JsMap.set name (DailyEntry.mk name score now)
                 (topScores (dailyLeaderboard w)))
              name (DailyEntry.mk name score2 now2)) as [Hsame|[Hnot _]];
    [done|].
  exfalso. apply Hnot.
  assert (Hget : is_Some (JsMap.get name
            (JsMap.set name (DailyEntry.mk name score now)
               (topScores (dailyLeaderboard w)))))
    by (rewrite jsmap_get_set_eq; eauto).
  revert Hget. generalize (JsMap.set name (DailyEntry.mk name score now)
                             (topScores (dailyLeaderboard w))).
  intros m. unfold JsMap.keys. induction m as [|[k v] m IH]; csimpl.
  - by intros [? ?].
  - case_decide; [subst; intros _; apply list_elem_of_here|].
    intros Hm. apply list_elem_of_further. by apply IH.
Qed.

(** X2: what the daily report broadcasts.  The list sent with
    [dailyLeaderboardUpdate] has at most ten entries, all taken from the
    board, highest score first, and an entry of the board that is left out
    has no more points than any entry that is sent. *)
Theorem daily_broadcast_top_ten (now : Z) (playerId name : jsstring)
    (score : Z) (w : World) :
  ∃ w' shown,
    exec (updateDailyLeaderboard now playerId name score) w = Some w'
    ∧ last (trace w')
        = Some (Emit ToAll (dailyLeaderboardUpdate shown
                              (currentDay (dailyLeaderboard w'))))
    ∧ length shown ≤ 10
    ∧ descending DailyEntry.score shown
    ∧ shown ⊆ JsMap.values (topScores (dailyLeaderboard w'))
    ∧ ∀ e, e ∈ JsMap.values (topScores (dailyLeaderboard w')) →
           e ∈ shown
           ∨ ∀ s, s ∈ shown → (DailyEntry.score e ≤ DailyEntry.score s)%Z.
Proof.
  eexists. eexists.
  split; [unfold exec; by rewrite updateDailyLeaderboard_run|]. simpl.
  split; [by rewrite last_app|]. apply shownDaily_best.
Qed.

(** X19: the daily board is a map from names.  Along every run each of
    its entries is filed under the name it carries and no name is filed
    twice, so a reader of the board finds at most one score per name. *)
Theorem daily_board_keyed_by_name (events : list (Z * event)) (w w' : World) :
  dailyKeyed w → run events w = Some w' → dailyKeyed w'.
Proof. apply run_preserves. apply step_dailyKeyed. Qed.
End daily_claims.

Lemma daily_board_keyed_witness :
  ∃ w', @run Utc.host Scenario.twoCollectors Scenario.boot = Some w'
        ∧ dailyKeyed w'.
Proof.
  eexists. split; [vm_compute; reflexivity|].
  refine (@daily_board_keyed_by_name Utc.host Scenario.twoCollectors
            Scenario.boot _ _ _).
  - split; constructor.
  - vm_compute. reflexivity.
Defined.

Section token_store_claims.
Context `{Host}.

(** X3: sweeps compose.  A sweep at [t1] followed by a sweep at a later
    [t2] leaves the store a single sweep at [t2] leaves; the first sweep
    keeps every token that is at most twenty-four hours old at [t1], and
    adds none. *)
Theorem sweep_composes (t1 t2 : Z) (w : World) :
  (t1 ≤ t2)%Z →
  ∃ w1 w2 w2',
    exec (cleanupExpiredTokens t1) w = Some w1
    ∧ exec (cleanupExpiredTokens t2) w1 = Some w2
    ∧ exec (cleanupExpiredTokens t2) w = Some w2'
    ∧ sessionTokens w2 = sessionTokens w2'
    ∧ (∀ tok td,
         sessionTokens w !! tok = Some td →
         (t1 - Token.created td ≤ TWENTY_FOUR_HOURS)%Z →
         sessionTokens w1 !! tok = Some td)
    ∧ sessionTokens w1 ⊆ sessionTokens w.
Proof.
  intros Hle.
  destruct (cleanupExpiredTokens_run t1 w) as (w1 & Hrun1 & Hlook1 & _).
  destruct (cleanupExpiredTokens_run t2 w1) as (w2 & Hrun2 & Hlook2 & _).
  destruct (cleanupExpiredTokens_run t2 w) as (w2' & Hrun2' & Hlook2' & _).
  exists w1, w2, w2'. unfold exec. rewrite Hrun1, Hrun2, Hrun2'.
  repeat (split; [done|]). split; [|split].
  - apply map_eq. intros tok. rewrite Hlook2, Hlook2', Hlook1.
    destruct (sessionTokens w !! tok) as [td|]; [|done].
    unfold expired.
    destruct (TWENTY_FOUR_HOURS <? t1 - Token.created td)%Z eqn:E1; [|done].
    apply Z.ltb_lt in E1. by rewrite (proj2 (Z.ltb_lt _ _)) by lia.
  - intros tok td Htd Hyoung. rewrite Hlook1, Htd. unfold expired.
    by rewrite (proj2 (Z.ltb_ge _ _)) by lia.
  - apply map_subseteq_spec. intros tok td. rewrite Hlook1.
    destruct (sessionTokens w !! tok) as [td'|]; [|done].
    by destruct (expired t1 td').
Qed.

(** X4: only a disconnect adds to the token store.  Every other turn of
    the loop leaves the store with a subset of the tokens it had, each
    still bound to the same name and score; and a turn that is neither a
    disconnect, a [setUsername] nor a sweep leaves the store as it is. *)
Theorem tokens_minted_only_at_disconnect (now : Z) (e : event) (w w' : World) :
  exec (step now e) w = Some w' →
  isDisconnect e = false →
  sessionTokens w' ⊆ sessionTokens w
  ∧ (touchesTokens e = false → sessionTokens w' = sessionTokens w).
Proof.
  intros Hstep Hdis.
  assert (Hframe : touchesTokens e = false →
                   sessionTokens w' = sessionTokens w).
  { intros He.
    eapply (preserves_exec (tokensAre (sessionTokens w))) in Hstep;
      [exact Hstep | by apply step_tokensAre | done]. }
  split; [|done].
  destruct (touchesTokens e) eqn:He; [|by rewrite Hframe].
  destruct e; try done; simpl in Hstep; apply exec_Some in Hstep as [a Hstep].
  - by eapply onSetUsername_tokens.
  - by eapply cleanupExpiredTokens_subseteq.
Qed.

(** X12: the books stay sound.  Along every run each pill of the pool is
    filed under its own id and worth one point, no connected player has a
    negative score, and every stored token binds a non-empty name to a
    positive score. *)
Theorem accounts_stay_sound (events : list (Z * event)) (w w' : World) :
  accountsSound w → run events w = Some w' → accountsSound w'.
Proof. apply run_preserves. apply step_accountsSound. Qed.

(** X13: what a move does to the scores.  With every pill worth one
    point, a [move] leaves the record of every other player untouched and
    the mover's score either as it was or one higher; no player leaves
    the registry. *)
Theorem move_scores_at_most_one (now : Z) (socketId : jsstring)
    (data : option MoveData) (w w' : World) :
  pillsSound w →
  exec (onMove now socketId data) w = Some w' →
  ∀ other p,
    players (gameState w) !! other = Some p →
    ∃ p', players (gameState w') !! other = Some p'
          ∧ (other ≠ socketId → p' = p)
          ∧ (Player.score p' = Player.score p
             ∨ Player.score p' = (Player.score p + 1)%Z)
          ∧ Player.name p' = Player.name p.
Proof.
  intros Hpills Hmove other p Hother.
  apply onMove_players in Hmove
    as [->|(q & d & Hq & [Hpl|(pillId & pill & Hin & Hpl)])].
  - exists p. split; [done|]. split; [done|]. split; [by left | done].
  - rewrite Hpl. destruct (decide (other = socketId)) as [->|Hne].
    + rewrite lookup_insert_eq. eexists. split; [done|].
      rewrite Hq in Hother. injection Hother as ->.
      split; [done|]. split; [by left | done].
    + rewrite lookup_insert_ne by done. exists p.
      split; [done|]. split; [done|]. split; [by left | done].
  - rewrite Hpl. destruct (decide (other = socketId)) as [->|Hne].
    + rewrite lookup_insert_eq. eexists. split; [done|].
      rewrite Hq in Hother. injection Hother as ->.
      split; [done|]. simpl. split; [|done]. right.
      unfold pillsSound in Hpills. rewrite Forall_forall in Hpills.
      destruct (Hpills _ Hin) as [_ Hone]. simpl in Hone. by rewrite Hone.
    + rewrite lookup_insert_ne by done. exists p.
      split; [done|]. split; [done|]. split; [by left | done].
Qed.
End token_store_claims.

Lemma sweep_composes_witness :
  (90000000 ≤ 93600000)%Z
  ∧ ∃ w1, exec (cleanupExpiredTokens 90000000) Reconnect.afterDay = Some w1
          ∧ sessionTokens w1 ⊆ sessionTokens Reconnect.afterDay.
Proof.
  assert (Hle : (90000000 ≤ 93600000)%Z) by lia.
  split; [exact Hle|].
  pose proof (sweep_composes 90000000 93600000 Reconnect.afterDay Hle) as Hthm.
  destruct Hthm as (w1 & _ & _ & Hrun & _ & _ & _ & _ & Hsub).
  exists w1. by split.
Defined.

Lemma tokens_minted_witness :
  ∃ w', exec (@step Utc.host 1003000
                (Move Scenario.socketA (Scenario.moveTo 2400 1600)))
          Overlap.start = Some w'
        ∧ sessionTokens w' ⊆ sessionTokens Overlap.start.
Proof.
  eexists. split; [vm_compute; reflexivity|].
  refine (proj1 (@tokens_minted_only_at_disconnect Utc.host 1003000
                   (Move Scenario.socketA (Scenario.moveTo 2400 1600))
                   Overlap.start _ _ _)).
  - vm_compute. reflexivity.
  - reflexivity.
Defined.

Lemma accounts_stay_sound_witness :
  ∃ w', @run Utc.host Scenario.twoCollectors Scenario.boot = Some w'
        ∧ accountsSound w'.
Proof.
  eexists. split; [vm_compute; reflexivity|].
  refine (@accounts_stay_sound Utc.host Scenario.twoCollectors
            Scenario.boot _ _ _).
  - split; [constructor|].
    split; intros ? ?; unfold Scenario.boot, initialWorld; simpl;
      by rewrite lookup_empty.
  - vm_compute. reflexivity.
Defined.

Lemma move_scores_witness :
  ∃ w', exec (@onMove Utc.host 1003000 Scenario.socketA
                (Scenario.moveTo 2400 1600)) Overlap.start = Some w'
        ∧ ∃ p', players (gameState w') !! Scenario.socketA = Some p'
                ∧ (Player.score p' = Player.score Overlap.alice
                   ∨ Player.score p' = (Player.score Overlap.alice + 1)%Z).
Proof.
  assert (Hpool : pills (gameState Overlap.start) = Overlap.pool)
    by (vm_compute; reflexivity).
  assert (Hsound : pillsSound Overlap.start).
  { unfold pillsSound. rewrite Hpool. by repeat constructor. }
  assert (Halice : players (gameState Overlap.start) !! Scenario.socketA
                   = Some Overlap.alice) by (vm_compute; reflexivity).
  assert (Hex : ∃ w', exec (@onMove Utc.host 1003000 Scenario.socketA
                              (Scenario.moveTo 2400 1600)) Overlap.start
                       = Some w') by (eexists; vm_compute; reflexivity).
  destruct Hex as [w' Hrun].
  pose proof (@move_scores_at_most_one Utc.host 1003000 Scenario.socketA
                (Scenario.moveTo 2400 1600) Overlap.start w' Hsound Hrun
                Scenario.socketA Overlap.alice Halice) as Hthm.
  destruct Hthm as (p' & Hp' & _ & Hscore & _).
  exists w'. split; [exact Hrun|].
  by exists p'.
Defined.

Section lifecycle_claims.
Context `{Host}.

(** X5: session tokens are distinct.  A token is never the empty string,
    so the truthiness test of [setUsername] lets it through, and two
    tokens minted at different clock readings, or with different random
    suffixes, are different strings: a later disconnect never overwrites
    the token of an earlier one. *)
Theorem session_tokens_distinct (now now' : Z) (rnd rnd' : jsstring) :
  (now, rnd) ≠ (now', rnd') →
  generateSessionToken now rnd ≠ generateSessionToken now' rnd'
  ∧ generateSessionToken now rnd ≠ []
  ∧ ∀ td td' (store : gmap jsstring Token.t),
      <[generateSessionToken now' rnd' := td']>
        (<[generateSessionToken now rnd := td]> store)
      !! generateSessionToken now rnd = Some td.
Proof.
  intros Hne.
  assert (Hdiff : generateSessionToken now rnd
                  ≠ generateSessionToken now' rnd').
  { intros [-> ->]%generateSessionToken_inj. by apply Hne. }
  split; [done|]. split; [done|]. intros td td' store.
  rewrite lookup_insert_ne by done. apply lookup_insert_eq.
Qed.

(** X6: the player count is the size of the registry.  Along every run
    [playerCount], the number the server broadcasts, equals the number of
    connected players. *)
Theorem player_count_is_registry_size (events : list (Z * event))
    (w w' : World) :
  countConsistent w → run events w = Some w' → countConsistent w'.
Proof. apply run_preserves. apply step_countConsistent. Qed.

(** X7: a disconnect without a score leaves nothing behind.  When the
    player has no points, the handler mints no token, reports nothing to
    either leaderboard and writes no file: it removes the player and
    broadcasts [playerLeft] and the new count.  A disconnect of a socket
    that is not in the registry does nothing at all. *)
Theorem disconnect_without_score (now : Z) (socketId rnd : jsstring)
    (w : World) :
  (∀ p, players (gameState w) !! socketId = Some p →
        (Player.score p ≤ 0)%Z) →
  ∃ w',
    exec (onDisconnect now socketId rnd) w = Some w'
    ∧ sessionTokens w' = sessionTokens w
    ∧ dailyLeaderboard w' = dailyLeaderboard w
    ∧ allTimeLeaderboard w' = allTimeLeaderboard w
    ∧ playerScores w' = playerScores w
    ∧ players (gameState w') = delete socketId (players (gameState w))
    ∧ (players (gameState w) !! socketId = None → w' = w)
    ∧ (is_Some (players (gameState w) !! socketId) →
       trace w' = trace w ++
         [Emit ToAll (playerLeft socketId);
          Emit ToAll (playerCountUpdate (size (players (gameState w'))))]).
Proof.
  intros Hscore. unfold exec.
  destruct (players (gameState w) !! socketId) as [p|] eqn:Hp.
  - rewrite (onDisconnect_quiet now socketId rnd w p Hp)
      by (right; by apply Hscore).
    eexists. split; [done|]. simpl. do 5 (split; [done|]).
    split; [done|]. by intros _.
  - rewrite onDisconnect_unknown by done. exists w.
    do 5 (split; [done|]).
    split; [by rewrite delete_id|]. split; [done|]. by intros [? ?].
Qed.

(** X8: a respawn needs no death.  The handler asks nothing of the
    player's health: for any registered player, the respawn request
    followed by its timer moves the player to a spawn point and sets the
    health to the maximum, keeping name and score, and broadcasts the new
    record. *)
Theorem respawn_restores_health (t1 t2 : Z) (socketId : jsstring)
    (r1 r2 : float) (w : World) (p : Player.t) :
  respawnTimers w = [] →
  players (gameState w) !! socketId = Some p →
  ∃ w' p',
    run [(t1, Respawn socketId); (t2, RespawnTimeout r1 r2)] w = Some w'
    ∧ players (gameState w') = <[socketId := p']> (players (gameState w))
    ∧ Player.health p' = Player.maxHealth p
    ∧ Player.x p' = Some (getRandomSpawnPoint r1 r2).1
    ∧ Player.y p' = Some (getRandomSpawnPoint r1 r2).2
    ∧ Player.score p' = Player.score p
    ∧ Player.name p' = Player.name p
    ∧ respawnTimers w' = []
    ∧ trace w' = trace w ++ [Emit ToAll (playerRespawned p')].
Proof.
  intros Ht Hp. exists
    (set_trace
       (trace w ++ [Emit ToAll (playerRespawned (respawnedPlayer p r1 r2))])
       (set_players
          (<[socketId := respawnedPlayer p r1 r2]> (players (gameState w)))
          w)),
    (respawnedPlayer p r1 r2).
  split; [|done]. simpl. unfold exec. rewrite onRespawn_run, Hp.
  rewrite (respawnTimeout_alive r1 r2 _ socketId [] p);
    [|by simpl; rewrite Ht|done].
  simpl. f_equal. destruct w. simpl in *. by subst.
Qed.

Lemma onDisconnect_timers timers now socketId rnd :
  preserves (timersAre timers) (onDisconnect now socketId rnd).
Proof.
  intros w a w' Hw. unfold onDisconnect, updateDailyLeaderboard. run_handler.
  destruct (players (gameState w) !! socketId) as [p|]; [|by intros [= _ <-]].
  destruct (truthy (Player.name p) && (0 <? Player.score p)%Z);
    by intros [= _ <-].
Qed.

Lemma onDisconnect_removes now socketId rnd w a w' :
  onDisconnect now socketId rnd w = Ok a w' →
  players (gameState w') = delete socketId (players (gameState w)).
Proof.
  unfold onDisconnect, updateDailyLeaderboard. run_handler.
  destruct (players (gameState w) !! socketId) as [p|] eqn:Hp;
    [|intros [= _ <-]; symmetry; by apply delete_id].
  destruct (truthy (Player.name p) && (0 <? Player.score p)%Z);
    by intros [= _ <-].
Qed.

Lemma onDisconnect_returns now socketId rnd w :
  ∃ w', onDisconnect now socketId rnd w = Ok tt w'.
Proof.
  destruct (players (gameState w) !! socketId) as [p|] eqn:Hp.
  - destruct (decide (Player.name p = [] ∨ (Player.score p ≤ 0)%Z))
      as [Hquiet|Hloud].
    + rewrite (onDisconnect_quiet _ _ _ _ p) by done. eauto.
    + destruct (onDisconnect_mint now socketId rnd w p)
        as (w1 & Hrun & _); [done | tauto | lia |]. eauto.
  - rewrite onDisconnect_unknown by done. eauto.
Qed.

(** X9: a respawn timer that outlives its player does nothing.  When the
    player disconnects between the request and the timer, the timer
    finds the socket gone: it changes no player and broadcasts nothing. *)
Theorem respawn_after_disconnect (t1 t2 t3 : Z) (socketId rnd : jsstring)
    (r1 r2 : float) (w : World) :
  respawnTimers w = [] →
  is_Some (players (gameState w) !! socketId) →
  ∃ w1 w',
    run [(t1, Respawn socketId); (t2, Disconnect socketId rnd)] w = Some w1
    ∧ exec (step t3 (RespawnTimeout r1 r2)) w1 = Some w'
    ∧ players (gameState w') = players (gameState w1)
    ∧ players (gameState w') !! socketId = None
    ∧ trace w' = trace w1
    ∧ respawnTimers w' = [].
Proof.
  intros Ht [p Hp]. cbn [run step]. unfold exec at 1.
  rewrite onRespawn_run, Hp.
  set (w0 := set_respawnTimers (respawnTimers w ++ [socketId]) w).
  unfold exec at 1.
  destruct (onDisconnect_returns t2 socketId rnd w0) as [w1 Hdis].
  rewrite Hdis.
  assert (Htimers : respawnTimers w1 = [socketId]).
  { eapply (onDisconnect_timers [socketId]) in Hdis; [exact Hdis|].
    unfold timersAre, w0. simpl. by rewrite Ht. }
  assert (Hgone : players (gameState w1) !! socketId = None).
  { rewrite (onDisconnect_removes _ _ _ _ _ _ Hdis). apply lookup_delete_eq. }
  exists w1. eexists. split; [done|]. unfold exec.
  rewrite (respawnTimeout_gone r1 r2 w1 socketId []) by done.
  by repeat split.
Qed.

(** X10: the countdown before the reset.  A tick of the one-second timer
    before the reset time sets [timeRemaining] to the time left, which is
    positive, broadcasts it as [timeUpdate], and leaves the board, the
    day and the files alone. *)
Theorem countdown_before_reset (now : Z) (w : World) :
  (now < default 0 (resetTime (dailyLeaderboard w)))%Z →
  ∃ w',
    exec (countdownTick now) w = Some w'
    ∧ timeRemaining (dailyLeaderboard w')
        = (default 0 (resetTime (dailyLeaderboard w)) - now)%Z
    ∧ (0 < timeRemaining (dailyLeaderboard w'))%Z
    ∧ topScores (dailyLeaderboard w') = topScores (dailyLeaderboard w)
    ∧ currentDay (dailyLeaderboard w') = currentDay (dailyLeaderboard w)
    ∧ resetTime (dailyLeaderboard w') = resetTime (dailyLeaderboard w)
    ∧ trace w' = trace w ++
        [Emit ToAll (timeUpdate (timeRemaining (dailyLeaderboard w')))].
Proof.
  intros Hearly. unfold exec. rewrite countdownTick_waiting by done.
  eexists. split; [done|]. simpl. split; [done|]. split; [lia|]. done.
Qed.

(** X11: the name [setUsername] stores.  A request with a string that is
    not blank is taken whenever the socket is registered; the stored name
    is the trimmed string cut to fifteen code units, so it has between
    one and fifteen code units and starts with a character that is not
    white space. *)
Theorem stored_name_shape (now : Z) (socketId u : jsstring)
    (mtok : option jsstring) (w : World) (p : Player.t) :
  players (gameState w) !! socketId = Some p →
  trim u ≠ [] →
  ∃ w' p',
    exec (onSetUsername now socketId
            (UsernameObject (UsernameString u) mtok)) w = Some w'
    ∧ players (gameState w') !! socketId = Some p'
    ∧ Player.name p' = take 15 (trim u)
    ∧ 1 ≤ length (Player.name p') ≤ 15
    ∧ ∃ c rest, Player.name p' = c :: rest ∧ isWhiteSpace c = false.
Proof.
  intros Hp Hu.
  destruct (onSetUsername_valid now socketId u mtok w p Hp Hu)
    as (score & tokens & Hrun & _).
  destruct (sanitized_shape u Hu) as (Hlen & _ & Hshape).
  eexists. eexists. unfold exec. rewrite Hrun. split; [done|]. simpl.
  rewrite lookup_insert_eq. split; [done|]. simpl. done.
Qed.

(** X14: the score ledger is never pruned.  Along every run the ledger
    keeps every key it has: an entry, once written under a name and a
    socket id, stays for the life of the process. *)
Theorem ledger_never_pruned (events : list (Z * event)) (w w' : World) :
  run events w = Some w' →
  dom (playerScores w) ⊆ dom (playerScores w').
Proof.
  intros Hrun.
  apply (run_preserves (ledgerKeeps (dom (playerScores w)))
           (step_ledger _) events w w'); [|done].
  unfold ledgerKeeps. reflexivity.
Qed.

(** X15: a score on the all-time board is never lost to a lower one.
    Along every run, each entry the board has is matched later by an
    entry with at least its score. *)
Theorem allTime_scores_never_drop (events : list (Z * event)) (w w' : World)
    (e : AllTimeEntry.t) :
  run events w = Some w' →
  e ∈ allTimeLeaderboard w →
  ∃ e', e' ∈ allTimeLeaderboard w'
        ∧ (AllTimeEntry.score e ≤ AllTimeEntry.score e')%Z.
Proof.
  intros Hrun He.
  apply (run_preserves (boardCovers (allTimeLeaderboard w))
           (step_boardCovers _) events w w'); [|done..].
  intros e0 He0. exists e0. by split.
Qed.

Lemma run_nextPlayerId events : ∀ w w',
  run events w = Some w' →
  nextPlayerId w' = nextPlayerId w + connections events.
Proof.
  induction events as [|[now e] events IH]; simpl; intros w w'.
  - intros [= <-]. lia.
  - destruct (exec (step now e) w) as [w1|] eqn:Hstep; [|done].
    intros Hrun. rewrite (IH _ _ Hrun).
    destruct (isConnection e) eqn:He.
    + destruct e; try done. simpl in Hstep.
      destruct (onConnection_run now socketId r1 r2 colorIndex w)
        as (w2 & Hrun2 & _ & Hnext & _).
      unfold exec in Hstep. rewrite Hrun2 in Hstep.
      injection Hstep as <-. lia.
    + eapply (preserves_exec (nextIdIs (nextPlayerId w))) in Hstep;
        [|by apply step_nextId | done].
      unfold nextIdIs in Hstep. lia.
Qed.

(** X16: player numbers are handed out in sequence.  After a run the
    counter has advanced by the number of connections of the run, and a
    connection names its player with the counter's reading: a number is
    not handed out again when its player leaves. *)
Theorem player_numbers_sequential (events : list (Z * event)) (w w' : World)
    (now : Z) (socketId : jsstring) (r1 r2 : float) (colorIndex : nat) :
  run events w = Some w' →
  nextPlayerId w' = nextPlayerId w + connections events
  ∧ ∃ w'' p,
      exec (step now (Connection socketId r1 r2 colorIndex)) w' = Some w''
      ∧ players (gameState w'') !! socketId = Some p
      ∧ Player.name p
          = js "Player " ++ js (pretty (nextPlayerId w + connections events))
      ∧ Player.score p = 0%Z
      ∧ nextPlayerId w'' = S (nextPlayerId w + connections events).
Proof.
  intros Hrun. pose proof (run_nextPlayerId _ _ _ Hrun) as Hnext.
  split; [done|].
  destruct (onConnection_run now socketId r1 r2 colorIndex w')
    as (w'' & Hrun' & Hplayers & Hnext' & _).
  exists w''. eexists. simpl. unfold exec. rewrite Hrun'. split; [done|].
  rewrite Hplayers, lookup_insert_eq. split; [done|]. simpl.
  by rewrite Hnext', Hnext.
Qed.

Ltac stopped_tac := unfold rampStopped in *; simpl in *; done.

Lemma scanPills_rampStopped n now playerId playerX playerY player entries :
  preserves (rampStopped n)
    (scanPills now playerId playerX playerY player entries).
Proof.
  induction entries as [|[pillId pill] rest IH]; simpl.
  - apply preserves_ret.
  - destruct (inReach _ _ _); [|done]. preserve IH stopped_tac.
Qed.

Lemma initialSpawnTick_rampStopped n now rnd r1 r2 :
  preserves (rampStopped n) (initialSpawnTick now rnd r1 r2).
Proof.
  intros w a w' [Hoff Hn]. unfold initialSpawnTick, mbind, M_bind, gets.
  rewrite Hoff. by intros [= _ <-].
Qed.

Lemma step_rampStopped n now e : preserves (rampStopped n) (step now e).
Proof.
  destruct e; simpl; try apply initialSpawnTick_rampStopped;
    try (unfold spawnTick);
    preserve (scanPills_rampStopped n) stopped_tac.
Qed.

(** X17: the start-up timer spends thirty attempts.  Along every run the
    counter of the timer stays within thirty, and once the timer is
    cleared it stays cleared and the counter keeps its value. *)
Theorem ramp_budget (events : list (Z * event)) (w w' : World) :
  rampWithinBudget w →
  run events w = Some w' →
  rampWithinBudget w'
  ∧ (initialSpawnInterval w = false →
     initialSpawnInterval w' = false
     ∧ initialPillsSpawned w' = initialPillsSpawned w).
Proof.
  intros Hw Hrun. split.
  - by apply (run_preserves rampWithinBudget step_ramp events w w').
  - intros Hoff.
    by apply (run_preserves (rampStopped (initialPillsSpawned w))
                (step_rampStopped _) events w w').
Qed.

(** X18: the start-up timer counts attempts, not pills.  A tick of the
    running timer below thirty adds one to the counter and leaves the
    timer running, also when the pool is full and no pill is spawned; the
    tick at thirty spawns nothing and clears the timer. *)
Theorem ramp_counts_attempts (now : Z) (rnd : jsstring) (r1 r2 : float)
    (w : World) :
  initialSpawnInterval w = true →
  ∃ w',
    exec (initialSpawnTick now rnd r1 r2) w = Some w'
    ∧ (initialPillsSpawned w < MAX_PILLS →
       initialPillsSpawned w' = S (initialPillsSpawned w)
       ∧ initialSpawnInterval w' = true
       ∧ (MAX_PILLS ≤ JsMap.size (pills (gameState w)) →
          pills (gameState w') = pills (gameState w)
          ∧ trace w' = trace w))
    ∧ (MAX_PILLS ≤ initialPillsSpawned w →
       initialSpawnInterval w' = false
       ∧ initialPillsSpawned w' = initialPillsSpawned w
       ∧ pills (gameState w') = pills (gameState w)
       ∧ trace w' = trace w).
Proof.
  intros Hon. unfold exec, initialSpawnTick, generatePill. run_handler.
  rewrite Hon. case_bool_decide as Hlt.
  - run_handler. case_bool_decide as Hfull; run_handler.
    + eexists. split; [done|]. simpl. split; [|lia]. by intros _.
    + eexists. split; [done|]. simpl. split; [|lia]. intros _.
      repeat (split; [done|]). lia.
  - run_handler. eexists. split; [done|]. simpl. split; [lia|]. by intros _.
Qed.
End lifecycle_claims.

Lemma session_tokens_distinct_witness :
  generateSessionToken 1800000 Reconnect.rnd
  ≠ generateSessionToken 1800001 Reconnect.rnd.
Proof.
  assert (Hne : (1800000%Z, Reconnect.rnd) ≠ (1800001%Z, Reconnect.rnd))
    by (intros [= ?]).
  exact (proj1 (session_tokens_distinct 1800000 1800001
                  Reconnect.rnd Reconnect.rnd Hne)).
Defined.

Lemma player_count_witness :
  ∃ w', @run Utc.host Scenario.twoCollectors Scenario.boot = Some w'
        ∧ countConsistent w'.
Proof.
  eexists. split; [vm_compute; reflexivity|].
  refine (@player_count_is_registry_size Utc.host Scenario.twoCollectors
            Scenario.boot _ _ _).
  - reflexivity.
  - vm_compute. reflexivity.
Defined.

Lemma disconnect_without_score_witness :
  ∃ w', exec (onDisconnect 1003000 Scenario.socketA Reconnect.rnd)
          Overlap.start = Some w'
        ∧ sessionTokens w' = sessionTokens Overlap.start.
Proof.
  assert (Halice : players (gameState Overlap.start) !! Scenario.socketA
                   = Some Overlap.alice) by (vm_compute; reflexivity).
  assert (Hscore : ∀ p, players (gameState Overlap.start) !! Scenario.socketA
                        = Some p → (Player.score p ≤ 0)%Z).
  { intros p Hp. rewrite Halice in Hp. injection Hp as <-. simpl. lia. }
  pose proof (disconnect_without_score 1003000 Scenario.socketA Reconnect.rnd
                Overlap.start Hscore) as Hthm.
  destruct Hthm as (w' & Hrun & Htokens & _).
  exists w'. by split.
Defined.

Lemma respawn_restores_health_witness :
  ∃ w' p',
    @run Utc.host [(1003000%Z, Respawn Scenario.socketA);
                   (1006000%Z, RespawnTimeout 0.5 0.5)] Overlap.start
      = Some w'
    ∧ players (gameState w') !! Scenario.socketA = Some p'
    ∧ Player.health p' = 100%Z.
Proof.
  assert (Halice : players (gameState Overlap.start) !! Scenario.socketA
                   = Some Overlap.alice) by (vm_compute; reflexivity).
  assert (Htimers : respawnTimers Overlap.start = [])
    by (vm_compute; reflexivity).
  pose proof (@respawn_restores_health Utc.host 1003000 1006000
                Scenario.socketA 0.5 0.5 Overlap.start Overlap.alice
                Htimers Halice) as Hthm.
  destruct Hthm as (w' & p' & Hrun & Hplayers & Hhealth & _).
  exists w', p'. split; [exact Hrun|].
  split; [by rewrite Hplayers, lookup_insert_eq | exact Hhealth].
Defined.

Lemma respawn_after_disconnect_witness :
  ∃ w1 w',
    @run Utc.host [(1003000%Z, Respawn Scenario.socketA);
                   (1004000%Z, Disconnect Scenario.socketA Reconnect.rnd)]
      Overlap.start = Some w1
    ∧ exec (@step Utc.host 1006000 (RespawnTimeout 0.5 0.5)) w1 = Some w'
    ∧ trace w' = trace w1.
Proof.
  assert (Halice : is_Some (players (gameState Overlap.start)
                              !! Scenario.socketA))
    by (exists Overlap.alice; vm_compute; reflexivity).
  assert (Htimers : respawnTimers Overlap.start = [])
    by (vm_compute; reflexivity).
  pose proof (@respawn_after_disconnect Utc.host 1003000 1004000 1006000
                Scenario.socketA Reconnect.rnd 0.5 0.5 Overlap.start
                Htimers Halice) as Hthm.
  destruct Hthm as (w1 & w' & Hrun & Hstep & _ & _ & Htrace & _).
  exists w1, w'. by repeat split.
Defined.

Lemma countdown_before_reset_witness :
  ∃ w', exec (@countdownTick Utc.host 60000) Scenario.boot = Some w'
        ∧ timeRemaining (dailyLeaderboard w') = 86340000%Z.
Proof.
  assert (Hreset : resetTime (dailyLeaderboard Scenario.boot)
                   = Some 86400000%Z) by (vm_compute; reflexivity).
  assert (Hearly : (60000
                    < default 0 (resetTime (dailyLeaderboard Scenario.boot)))%Z)
    by (rewrite Hreset; simpl; lia).
  pose proof (@countdown_before_reset Utc.host 60000 Scenario.boot Hearly)
    as Hthm.
  destruct Hthm as (w' & Hrun & Hremaining & _).
  exists w'. split; [exact Hrun|]. rewrite Hremaining, Hreset. reflexivity.
Defined.

Lemma stored_name_shape_witness :
  ∃ w' p',
    exec (onSetUsername 1003000 Scenario.socketA
            (UsernameObject
               (UsernameString (js "   A name of many letters  ")) None))
      Overlap.start = Some w'
    ∧ players (gameState w') !! Scenario.socketA = Some p'
    ∧ Player.name p' = js "A name of many ".
Proof.
  assert (Halice : players (gameState Overlap.start) !! Scenario.socketA
                   = Some Overlap.alice) by (vm_compute; reflexivity).
  assert (Hu : trim (js "   A name of many letters  ") ≠ [])
    by (vm_compute; discriminate).
  pose proof (stored_name_shape 1003000 Scenario.socketA
                (js "   A name of many letters  ") None Overlap.start
                Overlap.alice Halice Hu) as Hthm.
  destruct Hthm as (w' & p' & Hrun & Hp' & Hname & _).
  exists w', p'. split; [exact Hrun|]. split; [exact Hp'|].
  rewrite Hname. vm_compute. reflexivity.
Defined.

Lemma ledger_never_pruned_witness :
  ∃ w', @run Utc.host [(1800000%Z, Disconnect Scenario.socketA Reconnect.rnd)]
          Reconnect.afterCollect = Some w'
        ∧ dom (playerScores Reconnect.afterCollect) ⊆ dom (playerScores w').
Proof.
  assert (Hex : ∃ w', @run Utc.host
                        [(1800000%Z, Disconnect Scenario.socketA Reconnect.rnd)]
                        Reconnect.afterCollect = Some w')
    by (eexists; vm_compute; reflexivity).
  destruct Hex as [w' Hrun]. exists w'. split; [exact Hrun|].
  exact (@ledger_never_pruned Utc.host _ _ _ Hrun).
Defined.

Lemma allTime_scores_never_drop_witness :
  ∃ w' e',
    @run Utc.host [(1800000%Z, Disconnect Scenario.socketA Reconnect.rnd)]
      Reconnect.afterCollect = Some w'
    ∧ e' ∈ allTimeLeaderboard w'
    ∧ (1 ≤ AllTimeEntry.score e')%Z.
Proof.
  assert (Hex : ∃ w', @run Utc.host
                        [(1800000%Z, Disconnect Scenario.socketA Reconnect.rnd)]
                        Reconnect.afterCollect = Some w')
    by (eexists; vm_compute; reflexivity).
  destruct Hex as [w' Hrun].
  assert (Hin : ∃ e, e ∈ allTimeLeaderboard Reconnect.afterCollect
                     ∧ AllTimeEntry.score e = 1%Z).
  { assert (Hboard : ∃ e, allTimeLeaderboard Reconnect.afterCollect = [e]
                          ∧ AllTimeEntry.score e = 1%Z)
      by (eexists; split; vm_compute; reflexivity).
    destruct Hboard as (e & Hboard & Hscore). exists e.
    split; [|exact Hscore]. rewrite Hboard. apply list_elem_of_here. }
  destruct Hin as (e & Hin & Hscore).
  pose proof (@allTime_scores_never_drop Utc.host _ _ _ e Hrun Hin) as Hthm.
  destruct Hthm as (e' & Hin' & Hle).
  exists w', e'. split; [exact Hrun|]. split; [exact Hin'|].
  by rewrite <- Hscore.
Defined.

Lemma player_numbers_sequential_witness :
  ∃ w', @run Utc.host Scenario.twoCollectors Scenario.boot = Some w'
        ∧ nextPlayerId w' = 3.
Proof.
  assert (Hex : ∃ w', @run Utc.host Scenario.twoCollectors Scenario.boot
                      = Some w') by (eexists; vm_compute; reflexivity).
  destruct Hex as [w' Hrun]. exists w'. split; [exact Hrun|].
  exact (proj1 (@player_numbers_sequential Utc.host _ _ _ 2000
                  Scenario.socketA 0 0 0 Hrun)).
Defined.

Lemma ramp_budget_witness :
  ∃ w', @run Utc.host
          [(100%Z, InitialSpawnTick (js "0.11") 0.5 0.5);
           (200%Z, InitialSpawnTick (js "0.42") 0.25 0.25)]
          Scenario.boot = Some w'
        ∧ rampWithinBudget w'.
Proof.
  assert (Hex : ∃ w', @run Utc.host
                        [(100%Z, InitialSpawnTick (js "0.11") 0.5 0.5);
                         (200%Z, InitialSpawnTick (js "0.42") 0.25 0.25)]
                        Scenario.boot = Some w')
    by (eexists; vm_compute; reflexivity).
  destruct Hex as [w' Hrun]. exists w'. split; [exact Hrun|].
  assert (Hboot : rampWithinBudget Scenario.boot)
    by (unfold rampWithinBudget, MAX_PILLS; simpl; lia).
  exact (proj1 (@ramp_budget Utc.host _ _ _ Hboot Hrun)).
Defined.

Lemma ramp_counts_attempts_witness :
  ∃ w', exec (initialSpawnTick 100 (js "0.11") 0.5 0.5) Scenario.boot
        = Some w'
        ∧ initialPillsSpawned w' = 1.
Proof.
  assert (Hon : initialSpawnInterval Scenario.boot = true) by reflexivity.
  pose proof (ramp_counts_attempts 100 (js "0.11") 0.5 0.5 Scenario.boot Hon)
    as Hthm.
  destruct Hthm as (w' & Hrun & Hbelow & _).
  exists w'. split; [exact Hrun|].
  assert (Hlt : initialPillsSpawned Scenario.boot < MAX_PILLS)
    by (unfold MAX_PILLS; simpl; lia).
  exact (proj1 (Hbelow Hlt)).
Defined.

(** ** The files follow the state *)

Section disk_facts.
Context `{Host}.

Lemma lastWrite_snoc {A} (pick : document → option A) t e :
  lastWrite pick (t ++ [e])
  = match e with
    | WriteFile d =>
        match pick d with
        | Some a => Parsed a
        | None => lastWrite pick t
        end
    | Emit _ _ => lastWrite pick t
    end.
Proof.
  unfold lastWrite. rewrite omap_app. simpl.
  destruct e as [to m|d]; simpl; [by rewrite app_nil_r|].
  destruct (pick d) as [a|]; simpl; [by rewrite last_snoc|].
  by rewrite app_nil_r.
Qed.

Lemma app_cons_snoc {A} (t l : list A) a b :
  t ++ a :: b :: l = (t ++ [a]) ++ b :: l.
Proof. by rewrite <- app_assoc. Qed.

Ltac disk_tac :=
  unfold diskSynced, scoresOnDisk, dailyOnDisk, allTimeOnDisk in *;
  simpl in *; rewrite ?app_cons_snoc, ?lastWrite_snoc; simpl; tauto.

Lemma emit_diskSynced to m : preserves diskSynced (emit to m).
Proof. apply preserves_modify. intros w Hw. disk_tac. Qed.

Lemma collectPill_diskSynced now playerId pillId pill player :
  preserves diskSynced (collectPill now playerId pillId pill player).
Proof.
  intros w a w' _. unfold collectPill, updateDailyLeaderboard,
    updateAllTimeLeaderboard, saveAllTimeLeaderboard. run_handler.
  intros [= _ <-]. disk_tac.
Qed.

Lemma scanPills_diskSynced now playerId playerX playerY player entries :
  preserves diskSynced
    (scanPills now playerId playerX playerY player entries).
Proof.
  induction entries as [|[pillId pill] rest IH]; simpl.
  - apply preserves_ret.
  - destruct (inReach _ _ _); [apply collectPill_diskSynced | done].
Qed.

Ltac disk_preserve :=
  unfold_handlers;
  repeat first
    [ apply scanPills_diskSynced
    | apply emit_diskSynced
    | preserve_step
    | lazymatch goal with
      | |- preserves _ (modify _) =>
          apply preserves_modify; intros ? ?; disk_tac
      end ].

Lemma onMove_diskSynced now socketId data :
  preserves diskSynced (onMove now socketId data).
Proof. unfold onMove, checkPillCollection. disk_preserve. Qed.

Lemma step_diskSynced now e : preserves diskSynced (step now e).
Proof.
  destruct e as [s r1 r2 c|s data|s data|s|r1 r2|s rnd| | | |rnd r1 r2|rnd r1 r2];
    simpl.
  - disk_preserve.
  - intros w a w' Hw
      [->|(p & u & mtok & score & tokens & _ & _ & -> & _)]%onSetUsername_outcome;
      [done|]. disk_tac.
  - apply onMove_diskSynced.
  - disk_preserve.
  - disk_preserve.
  - intros w a w' Hw. unfold onDisconnect, updateDailyLeaderboard.
    run_handler.
    destruct (players (gameState w) !! s) as [p|]; [|by intros [= _ <-]].
    destruct (truthy (Player.name p) && (0 <? Player.score p)%Z);
      intros [= _ <-]; disk_tac.
  - intros w a w' Hw. unfold countdownTick, updateTimeRemaining,
      resetDailyLeaderboard. run_handler.
    destruct (Z.max 0 _ <=? 0)%Z; intros [= _ <-]; disk_tac.
  - intros w a w' Hw. unfold flushTick. run_handler.
    case_bool_decide; intros [= _ <-]; [disk_tac | done].
  - disk_preserve.
  - disk_preserve.
  - disk_preserve.
Qed.

(** X20: a crash loses no score.  Every handler that changes the ledger,
    the daily board or the all-time board writes the file before it
    returns, so after any run the files hold the state: a start from the
    files alone, without the shutdown handler having run, has the ledger
    and the all-time board of the moment of the crash, and on the same
    day the daily board with every name's entry; started on another day
    it has an empty daily board.  The session tokens are not in any
    file: none survives. *)
Theorem crash_recovery (events : list (Z * event)) (w w' : World) (now : Z) :
  diskSynced w →
  run events w = Some w' →
  diskSynced w'
  ∧ ∃ w2,
      exec (startup now (lastWrite scoresWritten (trace w'))
              (lastWrite dailyWritten (trace w'))
              (lastWrite allTimeWritten (trace w'))) (moduleInit now)
        = Some w2
      ∧ playerScores w2 = playerScores w'
      ∧ allTimeLeaderboard w2 = allTimeLeaderboard w'
      ∧ sessionTokens w2 = ∅
      ∧ (currentDay (dailyLeaderboard w') = toDateString now →
         topScores (dailyLeaderboard w2)
           = ownPropertyOrder (topScores (dailyLeaderboard w'))
         ∧ (JsMap.wf (topScores (dailyLeaderboard w')) →
            ∀ name, JsMap.get name (topScores (dailyLeaderboard w2))
                    = JsMap.get name (topScores (dailyLeaderboard w'))))
      ∧ (currentDay (dailyLeaderboard w') ≠ toDateString now →
         topScores (dailyLeaderboard w2) = []).
Proof.
  intros Hw Hrun.
  assert (Hw' : diskSynced w')
    by exact (run_preserves diskSynced step_diskSynced events w w' Hw Hrun).
  split; [done|]. destruct Hw' as (Hscores & Hdaily & HallTime).
  unfold exec, startup, loadDailyLeaderboard, initializeDailyReset,
    updateTimeRemaining.
  assert (Hlook : currentDay (dailyLeaderboard w') = toDateString now →
                  JsMap.wf (topScores (dailyLeaderboard w')) →
                  ∀ name,
                    JsMap.get name
                      (ownPropertyOrder (topScores (dailyLeaderboard w')))
                    = JsMap.get name (topScores (dailyLeaderboard w'))).
  { intros _ Hwf name.
    apply jsmap_get_perm; [done | apply ownPropertyOrder_perm]. }
  destruct Hscores as [-> | [-> Hs]], HallTime as [-> | [-> Ha]];
    destruct Hdaily as [-> | [-> Hd]]; simpl;
    try (destruct (decide (currentDay (dailyLeaderboard w')
                           = toDateString now)) as [Hday|Hday];
         [rewrite bool_decide_eq_true_2 by done
         |rewrite bool_decide_eq_false_2 by done]);
    run_handler; eexists; (split; [reflexivity|]); simpl;
    rewrite ?Hs, ?Ha, ?Hd; repeat (split; [done|]); try done;
    (split; [|by intros ?]); intros Hsame; (split; [done|]);
    first [ done | by apply Hlook ].
Qed.
End disk_facts.

Lemma crash_recovery_witness :
  ∃ w', @run Utc.host Scenario.twoCollectors Scenario.boot = Some w'
        ∧ diskSynced w'.
Proof.
  assert (Hex : ∃ w', @run Utc.host Scenario.twoCollectors Scenario.boot
                      = Some w') by (eexists; vm_compute; reflexivity).
  destruct Hex as [w' Hrun]. exists w'. split; [exact Hrun|].
  assert (Hboot : diskSynced Scenario.boot).
  { split; [|split]; right; split; reflexivity. }
  exact (proj1 (@crash_recovery Utc.host _ _ _ 2000 Hboot Hrun)).
Defined.
